(** * Picqer middleware: full-sync procedures, orchestrator and request queue

    A shallow embedding of [simplified-picqer-middleware.js].  The
    asynchronous JavaScript is rendered as explicit state passing over a
    [World] that carries the process globals ([dbPool], [syncInProgress],
    [lastSyncResults]), the console, and the two external collaborators:
    the remote Picqer service and the SQL Server database.  An awaited
    call that may reject is a computation in a small state-and-exception
    monad; [try]/[catch] is [try_catch]. *)

From Stdlib Require Import ZArith QArith Lqa Lia.
From stdpp Require Import base option list strings pretty gmap.

Local Open Scope string_scope.
Local Open Scope Z_scope.

(** ** JavaScript values carried by the remote records

    Numbers are integers: identifiers, stock counts, and prices counted
    in their smallest unit.  [JDate v] is [new Date(v)]. *)

Inductive JsVal :=
| JUndefined
| JNull
| JNum (n : Z)
| JStr (s : string)
| JDate (v : JsVal).

(** Truthiness, as used by [a || b] and [c ? x : y]. *)
Definition truthy (v : JsVal) : bool :=
  match v with
  | JUndefined | JNull => false
  | JNum n => negb (n =? 0)
  | JStr s => negb (String.eqb s "")
  | JDate _ => true
  end.

Definition jsOr (a b : JsVal) : JsVal := if truthy a then a else b.

(** An entity object of a list endpoint.  Its numeric identifier
    ([idproduct], [idpicklist] or [idwarehouse]) is kept apart from the
    other properties, which are looked up by name. *)
Record RemoteRecord := {
  remote_id : Z;
  props : gmap string JsVal
}.

Definition prop (r : RemoteRecord) (k : string) : JsVal :=
  default JUndefined (props r !! k).

(** ** Entities and tables *)

Inductive Entity := Products | Picklists | Warehouses.

#[global] Instance Entity_eq_dec : EqDecision Entity.
Proof. solve_decision. Defined.

Definition entityName (e : Entity) : string :=
  match e with
  | Products => "products"
  | Picklists => "picklists"
  | Warehouses => "warehouses"
  end.

(** Singular form, used in the per-row error message. *)
Definition entitySingular (e : Entity) : string :=
  match e with
  | Products => "product"
  | Picklists => "picklist"
  | Warehouses => "warehouse"
  end.

(** A stored row: the [id INT PRIMARY KEY] column, the remaining
    columns in declaration order, and [sync_date]. *)
Record Row := {
  row_id : Z;
  row_cols : list (string * JsVal);
  sync_date : Z
}.

(** The [.input(...)] bindings of each INSERT. *)
Definition insertParams (e : Entity) (r : RemoteRecord) : list (string * JsVal) :=
  match e with
  | Products =>
      [ ("idproduct", JNum (remote_id r));
        ("name", prop r "name");
        ("sku", jsOr (prop r "sku") (JStr ""));
        ("barcode", jsOr (prop r "barcode") (JStr ""));
        ("price", jsOr (prop r "price") (JNum 0));
        ("stock", jsOr (prop r "stock") (JNum 0)) ]
  | Picklists =>
      [ ("idpicklist", JNum (remote_id r));
        ("status", jsOr (prop r "status") (JStr ""));
        ("created", JDate (prop r "created"));
        ("completed",
          if truthy (prop r "completed") then JDate (prop r "completed") else JNull);
        ("warehouse_id", jsOr (prop r "warehouse_id") (JNum 0)) ]
  | Warehouses =>
      [ ("idwarehouse", JNum (remote_id r));
        ("name", prop r "name") ]
  end.

(** One row of [sync_status]; the table is keyed by [entity]. *)
Record SyncStatusRow := {
  last_sync : Z;
  record_count : Z;
  status : string
}.

Record Db := {
  products : list Row;
  picklists : list Row;
  warehouses : list Row;
  sync_status : gmap string SyncStatusRow
}.

Definition table (e : Entity) (d : Db) : list Row :=
  match e with
  | Products => products d
  | Picklists => picklists d
  | Warehouses => warehouses d
  end.

Definition set_table (e : Entity) (rows : list Row) (d : Db) : Db :=
  match e with
  | Products =>
      {| products := rows; picklists := picklists d;
         warehouses := warehouses d; sync_status := sync_status d |}
  | Picklists =>
      {| products := products d; picklists := rows;
         warehouses := warehouses d; sync_status := sync_status d |}
  | Warehouses =>
      {| products := products d; picklists := picklists d;
         warehouses := rows; sync_status := sync_status d |}
  end.

Definition set_sync_status (s : gmap string SyncStatusRow) (d : Db) : Db :=
  {| products := products d; picklists := picklists d;
     warehouses := warehouses d; sync_status := s |}.

(** ** SQL statements

    A statement maps the database and the value of [GETDATE()] to the
    new database, or to the message of the error SQL Server raises; a
    statement that raises leaves the database as it was. *)

Definition Statement := Db -> Z -> string + Db.

(** [DELETE FROM <table>] *)
Definition deleteAll (e : Entity) : Statement :=
  fun d _ => inr (set_table e [] d).

(** [INSERT INTO <table> (id, ...) VALUES (@id, ..., GETDATE())], once
    the call has reached the server: [id] is the primary key, so a second
    row with the same id is refused.  Whether the driver accepts the
    bound values ([sql.Int], [sql.DateTime] of [new Date(...)], ...) is
    not decided here: a call it refuses is a rejected call of the fault
    script, see [dbCall]. *)
Definition insertRow (e : Entity) (r : RemoteRecord) : Statement :=
  fun d t =>
    if existsb (fun x => row_id x =? remote_id r) (table e d)
    then inl "Violation of PRIMARY KEY constraint"
    else inr (set_table e
                (table e d ++
                   [{| row_id := remote_id r;
                       row_cols := insertParams e r;
                       sync_date := t |}]) d).

(** Width of [sync_status.status], declared [VARCHAR(50)] by
    [createTablesIfNotExist]. *)
Definition status_width : nat := 50.

Definition fits_status (s : string) : bool :=
  Nat.leb (String.length s) status_width.

(** Writing one [sync_status] row, modelled under [SET ANSI_WARNINGS ON],
    the setting of the connections the driver opens by default: a
    [status] longer than the column is refused and the statement changes
    nothing.  With that setting off the server would store the first 50
    characters instead; what is proved about over-long statuses below is
    stated so as to hold either way. *)
Definition putStatus (entity : string) (row : SyncStatusRow) (d : Db) : string + Db :=
  if fits_status (status row)
  then inr (set_sync_status (<[entity := row]> (sync_status d)) d)
  else inl "String or binary data would be truncated".

(** The success upsert:
    [IF EXISTS (SELECT * FROM sync_status WHERE entity = @entity)
       UPDATE sync_status SET last_sync = GETDATE(), record_count = @count,
                              status = 'success' WHERE entity = @entity
     ELSE INSERT INTO sync_status (entity, last_sync, record_count, status)
          VALUES (@entity, GETDATE(), @count, 'success')]. *)
Definition upsertSuccess (e : Entity) (count : Z) : Statement :=
  fun d t =>
    match sync_status d !! entityName e with
    | Some old =>
        putStatus (entityName e)
          {| last_sync := t; record_count := count; status := "success" |} d
    | None =>
        putStatus (entityName e)
          {| last_sync := t; record_count := count; status := "success" |} d
    end.

(** The error upsert:
    [IF EXISTS (SELECT * FROM sync_status WHERE entity = @entity)
       UPDATE sync_status SET last_sync = GETDATE(), status = 'error: ' + @error
       WHERE entity = @entity
     ELSE INSERT INTO sync_status (entity, last_sync, record_count, status)
          VALUES (@entity, GETDATE(), 0, 'error: ' + @error)]. *)
Definition upsertError (e : Entity) (error : string) : Statement :=
  fun d t =>
    match sync_status d !! entityName e with
    | Some old =>
        putStatus (entityName e)
          {| last_sync := t; record_count := record_count old;
             status := "error: " +:+ error |} d
    | None =>
        putStatus (entityName e)
          {| last_sync := t; record_count := 0;
             status := "error: " +:+ error |} d
    end.

(** ** Process state and environment *)

(** Result of one entity sync: [{success: true, count}] or
    [{success: false, error}]. *)
Inductive SyncResult :=
| SyncOk (count : Z)
| SyncErr (error : string).

Definition success (r : SyncResult) : bool :=
  match r with SyncOk _ => true | SyncErr _ => false end.

(** What [syncAll] returns and what [lastSyncResults] holds. *)
Inductive AllResult :=
| NoResults
| Rejected (error : string)
| Combined (timestamp : Z) (productsR picklistsR warehousesR : SyncResult)
           (ok : bool)
| Failed (timestamp : Z) (error : string).

Definition allSuccess (r : AllResult) : bool :=
  match r with
  | Combined _ _ _ _ ok => ok
  | _ => false
  end.

(** [console.log] writes at [Info], [console.error] at [Err]. *)
Inductive Level := Info | Err.

(** Outcome of one request to the remote service. *)
Inductive FetchOutcome :=
| Fetched (data : list RemoteRecord)
| FetchFailed (message : string).

(** The process and its environment.
    - [dbPool], [syncInProgress], [lastSyncResults]: the globals of the
      module; the server only listens once the pool is connected, so the
      pool is the database it reaches.
    - [clock]: what [GETDATE()] and [new Date()] read.
    - [console]: the lines written so far, oldest first.
    - [requested]: the endpoints asked of [picqerClient], oldest first.
    - [remote]: the answers the remote service will give to the next
      requests, in order.
    - [dbFaults]: for each coming database call, the error with which it
      rejects before its statement takes effect, if any: a lost
      connection, a timeout, or a bound value the driver refuses. *)
Record World := {
  dbPool : Db;
  syncInProgress : bool;
  lastSyncResults : AllResult;
  clock : Z;
  console : list (Level * string);
  requested : list string;
  remote : list FetchOutcome;
  dbFaults : list (option string)
}.

Definition with_db (d : Db) (w : World) : World :=
  {| dbPool := d; syncInProgress := syncInProgress w;
     lastSyncResults := lastSyncResults w; clock := clock w;
     console := console w; requested := requested w;
     remote := remote w; dbFaults := dbFaults w |}.

Definition with_flag (b : bool) (w : World) : World :=
  {| dbPool := dbPool w; syncInProgress := b;
     lastSyncResults := lastSyncResults w; clock := clock w;
     console := console w; requested := requested w;
     remote := remote w; dbFaults := dbFaults w |}.

Definition with_last (r : AllResult) (w : World) : World :=
  {| dbPool := dbPool w; syncInProgress := syncInProgress w;
     lastSyncResults := r; clock := clock w;
     console := console w; requested := requested w;
     remote := remote w; dbFaults := dbFaults w |}.

Definition with_console (c : list (Level * string)) (w : World) : World :=
  {| dbPool := dbPool w; syncInProgress := syncInProgress w;
     lastSyncResults := lastSyncResults w; clock := clock w;
     console := c; requested := requested w;
     remote := remote w; dbFaults := dbFaults w |}.

Definition with_dbFaults (f : list (option string)) (w : World) : World :=
  {| dbPool := dbPool w; syncInProgress := syncInProgress w;
     lastSyncResults := lastSyncResults w; clock := clock w;
     console := console w; requested := requested w;
     remote := remote w; dbFaults := f |}.

(** One awaited operation takes one unit of time. *)
Definition tick (w : World) : World :=
  {| dbPool := dbPool w; syncInProgress := syncInProgress w;
     lastSyncResults := lastSyncResults w; clock := clock w + 1;
     console := console w; requested := requested w;
     remote := remote w; dbFaults := dbFaults w |}.

(** ** Computations that may throw *)

Inductive Outcome (A : Type) :=
| Ret (a : A)
| Throw (message : string).
Arguments Ret {A} a.
Arguments Throw {A} message.

Definition M (A : Type) : Type := World -> Outcome A * World.

Definition ret {A} (a : A) : M A := fun w => (Ret a, w).

Definition bind {A B} (c : M A) (k : A -> M B) : M B :=
  fun w =>
    match c w with
    | (Ret a, w') => k a w'
    | (Throw m, w') => (Throw m, w')
    end.

(** [try { c } catch (error) { h error.message }]: what [c] did before it
    threw stays done. *)
Definition try_catch {A} (c : M A) (h : string -> M A) : M A :=
  fun w =>
    match c w with
    | (Ret a, w') => (Ret a, w')
    | (Throw m, w') => h m w'
    end.

Notation "'let*' x ':=' c 'in' k" := (bind c (fun x => k))
  (at level 10, x name, c at level 100, k at level 200).
Notation "c ;; k" := (bind c (fun _ => k))
  (at level 100, k at level 200, right associativity).

(** [console.log] and [console.error]. *)
Definition log (l : Level) (s : string) : M unit :=
  fun w => (Ret tt, with_console (console w ++ [(l, s)]) w).

(** [new Date()] *)
Definition newDate : M Z := fun w => (Ret (clock w), w).

(** The fault the environment has scripted for the next database call,
    if any; an exhausted script means no fault. *)
Definition nextFault (faults : list (option string)) : option string :=
  match faults with
  | Some m :: _ => Some m
  | _ => None
  end.

(** An awaited call on [dbPool]: it may reject before the statement
    runs (connection lost, timeout, a bound value refused by the
    driver), as the fault script says. *)
Definition dbCall {A} (run : M A) : M A :=
  fun w =>
    let w1 := with_dbFaults (tail (dbFaults w)) (tick w) in
    match nextFault (dbFaults w) with
    | Some m => (Throw m, w1)
    | None => run w1
    end.

(** [await dbPool.request()...query(stmt)] for a statement that writes:
    it either raises or commits. *)
Definition query (stmt : Statement) : M unit :=
  dbCall (fun w =>
            match stmt (dbPool w) (clock w) with
            | inl m => (Throw m, w)
            | inr d => (Ret tt, with_db d w)
            end).

(** [SELECT entity, last_sync, record_count, status FROM sync_status] *)
Definition selectSyncStatus : M (gmap string SyncStatusRow) :=
  dbCall (fun w => (Ret (sync_status (dbPool w)), w)).

(** [await picqerClient.request(method, endpoint)]: resolves with the
    response body or rejects with the transport error.  When the
    environment scripts no answer the request fails. *)
Definition request (method endpoint : string) : M (list RemoteRecord) :=
  fun w =>
    let w1 :=
      {| dbPool := dbPool w; syncInProgress := syncInProgress w;
         lastSyncResults := lastSyncResults w; clock := clock w + 1;
         console := console w; requested := requested w ++ [endpoint];
         remote := tail (remote w); dbFaults := dbFaults w |} in
    match remote w with
    | Fetched data :: _ => (Ret data, w1)
    | FetchFailed m :: _ =>
        (Throw m,
         with_console
           (console w1 ++
              [(Err, "Error in Picqer API request to " +:+ endpoint +:+ ": " +:+ m)])
           w1)
    | [] =>
        (Throw "Network Error",
         with_console
           (console w1 ++
              [(Err, "Error in Picqer API request to " +:+ endpoint
                       +:+ ": Network Error")])
           w1)
    end.

Definition getProducts : M (list RemoteRecord) := request "get" "products".
Definition getPicklists : M (list RemoteRecord) := request "get" "picklists".
Definition getWarehouses : M (list RemoteRecord) := request "get" "warehouses".

Definition getEntity (e : Entity) : M (list RemoteRecord) :=
  match e with
  | Products => getProducts
  | Picklists => getPicklists
  | Warehouses => getWarehouses
  end.

(** ** The entity sync procedures *)

(** The body of the [for (const record of records)] loop, an inner
    [try]/[catch]: a row whose INSERT rejects is logged and skipped. *)
Definition insertOne (e : Entity) (r : RemoteRecord) (insertedCount : Z) : M Z :=
  try_catch
    (query (insertRow e r) ;; ret (insertedCount + 1))
    (fun m =>
       log Err ("Error inserting " +:+ entitySingular e +:+ " "
                  +:+ pretty (remote_id r) +:+ ": " +:+ m) ;;
       ret insertedCount).

Fixpoint insertLoop (e : Entity) (records : list RemoteRecord)
    (insertedCount : Z) : M Z :=
  match records with
  | [] => ret insertedCount
  | r :: rest =>
      let* n := insertOne e r insertedCount in
      insertLoop e rest n
  end.

(** [syncProducts], [syncPicklists] and [syncWarehouses] are the same
    text up to the entity name, the client method and the INSERT
    bindings.  [syncBody] is the [try] block and [syncHandler] the
    [catch (error)] block, applied to [error.message]. *)
Definition syncBody (e : Entity) : M SyncResult :=
  log Info ("Syncing " +:+ entityName e +:+ "...") ;;
  let* records := getEntity e in
  log Info ("Retrieved " +:+ pretty (Z.of_nat (length records)) +:+ " "
              +:+ entityName e +:+ " from Picqer") ;;
  query (deleteAll e) ;;
  let* insertedCount := insertLoop e records 0 in
  query (upsertSuccess e insertedCount) ;;
  log Info ("Synced " +:+ pretty insertedCount +:+ " " +:+ entityName e
              +:+ " successfully") ;;
  ret (SyncOk insertedCount).

Definition syncHandler (e : Entity) (message : string) : M SyncResult :=
  log Err ("Error syncing " +:+ entityName e +:+ ": " +:+ message) ;;
  try_catch
    (query (upsertError e (String.substring 0 255 message)))
    (fun statusMessage =>
       log Err ("Error updating sync status: " +:+ statusMessage)) ;;
  ret (SyncErr message).

Definition syncEntity (e : Entity) : M SyncResult :=
  try_catch (syncBody e) (syncHandler e).

Definition syncProducts : M SyncResult := syncEntity Products.
Definition syncPicklists : M SyncResult := syncEntity Picklists.
Definition syncWarehouses : M SyncResult := syncEntity Warehouses.

(** ** The orchestrator *)

Definition setSyncInProgress (b : bool) : M unit :=
  fun w => (Ret tt, with_flag b w).

Definition setLastSyncResults (r : AllResult) : M unit :=
  fun w => (Ret tt, with_last r w).

Definition syncAll : M AllResult :=
  fun w =>
    if syncInProgress w
    then
      (log Info "Sync already in progress, skipping request" ;;
       ret (Rejected "Sync already in progress")) w
    else
      (setSyncInProgress true ;;
       log Info "Starting sync for all entities..." ;;
       try_catch
         (let* productsResult := syncProducts in
          let* picklistsResult := syncPicklists in
          let* warehousesResult := syncWarehouses in
          let* timestamp := newDate in
          let results :=
            Combined timestamp productsResult picklistsResult warehousesResult
              (success productsResult || success picklistsResult
               || success warehousesResult) in
          setLastSyncResults results ;;
          log Info "Sync completed for all entities" ;;
          setSyncInProgress false ;;
          ret results)
         (fun message =>
            log Err ("Error in syncAll: " +:+ message) ;;
            let* timestamp := newDate in
            setLastSyncResults (Failed timestamp message) ;;
            setSyncInProgress false ;;
            ret (Failed timestamp message))) w.

(** ** HTTP handlers *)

(** One entry of the [stats] object of [GET /api/stats]. *)
Record StatEntry := {
  lastSyncDate : option Z;
  totalCount : Z;
  statStatus : string
}.

Inductive Body :=
| Started (message : string)
| Refused (message : string)
| ServerError (error : string)
| Stats (stats : gmap string StatEntry) (inProgress : bool)
| Results (inProgress : bool) (lastResults : AllResult).

Record Response := {
  code : Z;
  body : Body
}.

(** A promise started by a handler and left to run after the response. *)
Inductive Background :=
| RunAll
| RunEntity (e : Entity).

(** [POST /api/sync] *)
Definition postSync (w : World) : Response * option Background * World :=
  ({| code := 200; body := Started "Sync started for all entities" |},
   Some RunAll, w).

(** [POST /api/sync/:entity]: the [switch] compares the path parameter
    with the three literals. *)
Definition postSyncEntity (entity : string) (w : World)
    : Response * option Background * World :=
  let w1 :=
    with_console (console w ++ [(Info, entity +:+ " sync request received")]) w in
  let started e :=
    ({| code := 200; body := Started ("Sync started for " +:+ entity) |},
     Some (RunEntity e), w1) in
  if String.eqb entity "products" then started Products
  else if String.eqb entity "picklists" then started Picklists
  else if String.eqb entity "warehouses" then started Warehouses
  else
    ({| code := 400; body := Refused ("Unknown entity type: " +:+ entity) |},
     None, w1).

(** The started promise, run to its settlement. *)
Definition runBackground (b : option Background) (w : World) : World :=
  match b with
  | Some RunAll => snd (syncAll w)
  | Some (RunEntity e) => snd (syncEntity e w)
  | None => w
  end.

(** [GET /api/sync/results] *)
Definition getSyncResults (w : World) : Response :=
  {| code := 200; body := Results (syncInProgress w) (lastSyncResults w) |}.

Definition statOfRow (row : SyncStatusRow) : StatEntry :=
  {| lastSyncDate := Some (last_sync row);
     totalCount := record_count row;
     statStatus := status row |}.

Definition notSynced : StatEntry :=
  {| lastSyncDate := None; totalCount := 0; statStatus := "Not synced yet" |}.

(** The second loop of the stats handler: a known entity without an
    entry gets the placeholder. *)
Definition addDefaults (stats : gmap string StatEntry) : gmap string StatEntry :=
  foldl (fun st entity =>
           match st !! entity with
           | Some _ => st
           | None => <[entity := notSynced]> st
           end)
        stats ["products"; "picklists"; "warehouses"].

(** [GET /api/stats]: [entity] is the key of [sync_status], so the first
    loop, [stats[row.entity] = {...}] on a plain object, builds one own
    property per row, except for a row named [__proto__]: that
    assignment sets the prototype of [stats] and leaves no property, so
    the row is missing from the answer.  In the [catch] block
    [console.error] is given the text and the Error object; of that line
    only the text is recorded, not what the runtime prints for the
    object. *)
Definition getStats (w : World) : Response * World :=
  match selectSyncStatus w with
  | (Ret recordset, w') =>
      ({| code := 200;
          body := Stats (addDefaults (delete "__proto__" (statOfRow <$> recordset)))
                    (syncInProgress w') |},
       w')
  | (Throw m, w') =>
      ({| code := 500; body := ServerError m |},
       with_console (console w' ++ [(Err, "Error in stats endpoint:")]) w')
  end.

(** ** Observations used in the statements *)

Definition isErr (l : Level) : bool :=
  match l with Err => true | Info => false end.

(** Number of [console.error] lines. *)
Definition errors (c : list (Level * string)) : nat :=
  length (List.filter (fun x => isErr (fst x)) c).

(** The message with which the sync fails before anything is deleted:
    the fetch rejects, or the fetch resolves and the DELETE is made to
    reject. *)
Definition fetchFailure (w : World) : option string :=
  match remote w with
  | FetchFailed m :: _ => Some m
  | [] => Some "Network Error"
  | Fetched _ :: _ => None
  end.

Definition deleteFailure (w : World) : option string :=
  match remote w with
  | Fetched _ :: _ => nextFault (dbFaults w)
  | _ => None
  end.

Definition fetchOrDeleteFailure (w : World) : option string :=
  match fetchFailure w with
  | Some m => Some m
  | None => deleteFailure w
  end.

(** The database faults still pending when the [catch] block runs after
    such a failure: a rejected DELETE has used one up. *)
Definition faultsAfterFailure (w : World) : list (option string) :=
  match remote w with
  | Fetched _ :: _ => tail (dbFaults w)
  | _ => dbFaults w
  end.

(** Why the error upsert fails, if it does, given the pending faults:
    the call is made to reject, or the status does not fit its column. *)
Definition upsertFailure (faults : list (option string)) (message : string)
    : option string :=
  match nextFault faults with
  | Some sm => Some sm
  | None =>
      if fits_status ("error: " +:+ String.substring 0 255 message)
      then None
      else Some "String or binary data would be truncated"
  end.

Definition statusUpsertFailure (w : World) (message : string) : option string :=
  upsertFailure (faultsAfterFailure w) message.

(** The row the error upsert writes over the previous one. *)
Definition errorRow (old : option SyncStatusRow) (t : Z) (message : string)
    : SyncStatusRow :=
  {| last_sync := t;
     record_count := match old with Some o => record_count o | None => 0 end;
     status := "error: " +:+ String.substring 0 255 message |}.

(** What a computation may do to the process globals and the remote
    script while it talks to the database and the console only. *)
Definition db_only (w w' : World) : Prop :=
  syncInProgress w' = syncInProgress w /\
  lastSyncResults w' = lastSyncResults w /\
  requested w' = requested w /\
  remote w' = remote w.

(** What an entity sync leaves alone among the process globals. *)
Definition same_globals (w w' : World) : Prop :=
  syncInProgress w' = syncInProgress w /\
  lastSyncResults w' = lastSyncResults w.

(** The world in which the three entity syncs of an accepted run start:
    the flag is set and the start is logged. *)
Definition started (w : World) : World :=
  with_console (console (with_flag true w) ++
                  [(Info, "Starting sync for all entities...")])
    (with_flag true w).

(** A computation is blind to the flag when setting the flag beforehand
    changes neither its outcome nor the world it leaves, the flag apart. *)
Definition flag_blind {A} (c : M A) : Prop :=
  forall b w, c (with_flag b w) = (fst (c w), with_flag b (snd (c w))).

(** ** The rate-limited request queue of [PicqerClient]

    The queue is driven by the event loop, so it is modelled as a
    transition system over a virtual clock in milliseconds.  Nothing in
    the state type limits how many axios calls or timers are pending:
    that at most one is, is proved below. *)

Module PicqerClient.

Local Open Scope Q_scope.

Record Request := {
  method : string;
  endpoint : string;
  data : option string;
  promise : nat
}.

Record Config := {
  cfg_apiKey : string;
  cfg_baseUrl : string;
  cfg_requestsPerMinute : Z
}.

Record Client := {
  apiKey : string;
  baseUrl : string;
  requestsPerMinute : Z;
  requestQueue : list Request;
  processing : bool
}.

(** The client together with what the runtime holds for it. *)
Record Loop := {
  client : Client;
  time : Q;
  inflight : list Request;
  timers : list Q;
  submitted : list Request;
  dispatched : list (Q * Request);
  settled : list (Request * bool)
}.

(** [(60 * 1000) / this.requestsPerMinute] *)
Definition delay (c : Client) : Q :=
  inject_Z (60 * 1000) / inject_Z (requestsPerMinute c).

Definition with_queue (q : list Request) (p : bool) (c : Client) : Client :=
  {| apiKey := apiKey c; baseUrl := baseUrl c;
     requestsPerMinute := requestsPerMinute c;
     requestQueue := q; processing := p |}.

(** [processNextRequest] up to its [await]: an empty queue ends the
    processing; otherwise the head is shifted off and handed to axios.
    [dispatched] records the call, most recent first. *)
Definition processNextRequest (l : Loop) : Loop :=
  match requestQueue (client l) with
  | [] =>
      {| client := with_queue [] false (client l); time := time l;
         inflight := inflight l; timers := timers l;
         submitted := submitted l; dispatched := dispatched l;
         settled := settled l |}
  | r :: rest =>
      {| client := with_queue rest true (client l); time := time l;
         inflight := inflight l ++ [r]; timers := timers l;
         submitted := submitted l; dispatched := (time l, r) :: dispatched l;
         settled := settled l |}
  end.

(** [startRequestProcessor] *)
Definition startRequestProcessor (l : Loop) : Loop :=
  if negb (processing (client l))
     && negb (Nat.eqb (length (requestQueue (client l))) 0)
  then processNextRequest l
  else l.

(** [new PicqerClient(config)] at time [t]. *)
Definition create (config : Config) (t : Q) : Loop :=
  startRequestProcessor
    {| client :=
         {| apiKey := cfg_apiKey config; baseUrl := cfg_baseUrl config;
            requestsPerMinute :=
              if (cfg_requestsPerMinute config =? 0)%Z then 30%Z
              else cfg_requestsPerMinute config;
            requestQueue := []; processing := false |};
       time := t; inflight := []; timers := [];
       submitted := []; dispatched := []; settled := [] |}.

(** [request(method, endpoint, data)]: push, and start the processor
    when it is not running. *)
Definition request (r : Request) (l : Loop) : Loop :=
  let l1 :=
    {| client :=
         with_queue (requestQueue (client l) ++ [r]) (processing (client l))
           (client l);
       time := time l; inflight := inflight l; timers := timers l;
       submitted := submitted l ++ [r]; dispatched := dispatched l;
       settled := settled l |} in
  if negb (processing (client l1)) then processNextRequest l1 else l1.

(** The rest of [processNextRequest], run when the axios call of the
    [i]-th pending request settles: [resolve] or [reject] is called and
    the timer is armed, in both cases alike. *)
Definition answer (i : nat) (ok : bool) (l : Loop) : Loop :=
  match inflight l !! i with
  | Some r =>
      {| client := client l; time := time l;
         inflight := delete i (inflight l);
         timers := timers l ++ [time l + delay (client l)];
         submitted := submitted l; dispatched := dispatched l;
         settled := settled l ++ [(r, ok)] |}
  | None => l
  end.

(** The callback of the [i]-th pending [setTimeout], which the runtime
    does not run before it is due. *)
Definition fire (i : nat) (l : Loop) : Loop :=
  match timers l !! i with
  | Some due =>
      if Qle_bool due (time l)
      then processNextRequest
             {| client := client l; time := time l; inflight := inflight l;
                timers := delete i (timers l);
                submitted := submitted l; dispatched := dispatched l;
                settled := settled l |}
      else l
  | None => l
  end.

Definition wait (d : Q) (l : Loop) : Loop :=
  if Qle_bool 0 d
  then {| client := client l; time := time l + d; inflight := inflight l;
          timers := timers l; submitted := submitted l;
          dispatched := dispatched l; settled := settled l |}
  else l.

Inductive Event :=
| Call (r : Request)
| Answer (i : nat) (ok : bool)
| Fire (i : nat)
| Wait (d : Q).

Definition step (l : Loop) (ev : Event) : Loop :=
  match ev with
  | Call r => request r l
  | Answer i ok => answer i ok l
  | Fire i => fire i l
  | Wait d => wait d l
  end.

Definition run (evs : list Event) (l : Loop) : Loop := foldl step l evs.

(** Consecutive entries of a most-recent-first list of times are at
    least [d] apart. *)
Fixpoint spaced (d : Q) (ts : list Q) : Prop :=
  match ts with
  | t2 :: rest =>
      match rest with
      | t1 :: _ => t1 + d <= t2
      | [] => True
      end /\ spaced d rest
  | [] => True
  end.

(** Time of the most recent axios call. *)
Definition lastDispatch (l : Loop) : option Q :=
  head (map fst (dispatched l)).

(** What holds of every state the event loop can reach. *)
Definition Inv (l : Loop) : Prop :=
  (length (inflight l) + length (timers l) <= 1)%nat /\
  processing (client l)
    = negb (Nat.eqb (length (inflight l) + length (timers l)) 0) /\
  submitted l = (rev (map snd (dispatched l)) ++ requestQueue (client l))%list /\
  (map fst (settled l) ++ inflight l = rev (map snd (dispatched l)))%list /\
  spaced (delay (client l)) (map fst (dispatched l)) /\
  (forall t, lastDispatch l = Some t -> t <= time l) /\
  (forall t due, lastDispatch l = Some t -> In due (timers l) ->
                 t + delay (client l) <= due) /\
  (processing (client l) = false ->
   forall t, lastDispatch l = Some t -> t + delay (client l) <= time l).

End PicqerClient.

(** ** Scenarios *)

(** [n] entity objects with the identifiers [1..n]. *)
Definition mkRecords (n : nat) : list RemoteRecord :=
  map (fun i => {| remote_id := Z.of_nat i; props := ∅ |}) (seq 1 n).

Definition emptyDb : Db :=
  {| products := []; picklists := []; warehouses := []; sync_status := ∅ |}.

Definition freshWorld (answers : list FetchOutcome)
    (faults : list (option string)) : World :=
  {| dbPool := emptyDb; syncInProgress := false; lastSyncResults := NoResults;
     clock := 0; console := []; requested := [];
     remote := answers; dbFaults := faults |}.

(** Products succeed with 10 rows, picklists time out, warehouses
    succeed with 3 rows. *)
Definition mixedRun : World :=
  freshWorld [Fetched (mkRecords 10); FetchFailed "timeout"; Fetched (mkRecords 3)] [].

(** A full sync is under way. *)
Definition busyWorld : World := with_flag true mixedRun.

(** Four products, two of them with the same identifier, and the
    database call of the third INSERT made to reject. *)
Definition lossyFetch : World :=
  freshWorld
    [Fetched [ {| remote_id := 1; props := {[ "name" := JStr "bolt" ]} |};
               {| remote_id := 1; props := {[ "name" := JStr "bolt" ]} |};
               {| remote_id := 2; props := {[ "name" := JStr "nut" ]} |};
               {| remote_id := 3; props := ∅ |} ]]
    [None; None; None; Some "Connection lost"; None; None].

(** The fetch fails and the database is reachable. *)
Definition fetchDown : World := freshWorld [FetchFailed "timeout"] [].

(** The fetch fails and so does the next database call. *)
Definition allDown : World :=
  freshWorld [FetchFailed "timeout"] [Some "Connection is closed."].

(** Two picklists stored by an earlier successful sync. *)
Definition syncedPicklists : Db :=
  {| products := [];
     picklists :=
       [ {| row_id := 7; row_cols := insertParams Picklists
                                       {| remote_id := 7; props := ∅ |};
            sync_date := 3 |};
         {| row_id := 8; row_cols := insertParams Picklists
                                       {| remote_id := 8; props := ∅ |};
            sync_date := 4 |} ];
     warehouses := [];
     sync_status :=
       {[ "picklists" := {| last_sync := 5; record_count := 2;
                            status := "success" |} ]} |}.

Definition picklistsDown : World :=
  with_db syncedPicklists
    (freshWorld [FetchFailed "Request failed with status code 500"]
       [Some "Connection is closed."]).

Definition picklistsFetchDown : World :=
  with_db syncedPicklists
    (freshWorld [FetchFailed "Request failed with status code 500"] []).

(** The fetch works, the DELETE is made to reject, and so is the error
    upsert. *)
Definition deleteDown : World :=
  freshWorld [Fetched (mkRecords 2)]
    [Some "Connection lost"; Some "Connection is closed."].

(** A fetch error whose message does not fit the status column once
    prefixed. *)
Definition longMessage : World :=
  freshWorld [FetchFailed "getaddrinfo ENOTFOUND api.picqer.example.invalid"] [].

(** A successful products sync followed by a failing fetch. *)
Definition firstRun : World :=
  freshWorld [Fetched (mkRecords 2); FetchFailed "timeout"] [].

Definition secondRun : World := snd (syncProducts firstRun).

(** The second run with the database call of its [catch] block made to
    reject. *)
Definition secondRunDbDown : World :=
  with_dbFaults [Some "Connection is closed."] secondRun.

Definition cfg30 : PicqerClient.Config :=
  {| PicqerClient.cfg_apiKey := "key";
     PicqerClient.cfg_baseUrl := "https://example.picqer.com/api/v1";
     PicqerClient.cfg_requestsPerMinute := 30 |}.

Definition getReq (ep : string) (p : nat) : PicqerClient.Request :=
  {| PicqerClient.method := "get"; PicqerClient.endpoint := ep;
     PicqerClient.data := None; PicqerClient.promise := p |}.

(** Two requests in a row; the first is rejected after 150 ms; the timer
    is tried too early, then fires when due. *)
Definition queueDemo : list PicqerClient.Event :=
  [ PicqerClient.Call (getReq "products" 0);
    PicqerClient.Call (getReq "picklists" 1);
    PicqerClient.Wait (150 # 1);
    PicqerClient.Answer 0 false;
    PicqerClient.Wait (1999 # 1);
    PicqerClient.Fire 0;
    PicqerClient.Wait (1 # 1);
    PicqerClient.Fire 0 ].

(** ** Further observations *)

(** The row an INSERT stores for a fetched record at time [t]. *)
Definition rowOf (e : Entity) (r : RemoteRecord) (t : Z) : Row :=
  {| row_id := remote_id r; row_cols := insertParams e r; sync_date := t |}.

(** The row was built from one of the fetched records. *)
Definition fromRecords (e : Entity) (records : list RemoteRecord) (row : Row)
    : Prop :=
  exists r, In r records /\ row_id row = remote_id r /\
            row_cols row = insertParams e r.

(** The primary keys of a table, in storage order. *)
Definition ids (rows : list Row) : list Z := map row_id rows.

(** What a row holds apart from its [sync_date]. *)
Definition content (row : Row) : Z * list (string * JsVal) :=
  (row_id row, row_cols row).

(** No coming database call is made to reject. *)
Definition quiet (faults : list (option string)) : Prop :=
  Forall (fun f => f = None) faults.



(** The worlds an entity sync passes through: after the request was
    answered with a collection (both [console.log] lines written), after
    it was rejected, and after the DELETE went through. *)
Definition fetchedWorld (e : Entity) (records : list RemoteRecord) (w : World)
    : World :=
  {| dbPool := dbPool w; syncInProgress := syncInProgress w;
     lastSyncResults := lastSyncResults w; clock := clock w + 1;
     console :=
       (console w ++ [(Info, "Syncing " +:+ entityName e +:+ "...")]) ++
       [(Info, "Retrieved " +:+ pretty (Z.of_nat (length records)) +:+ " "
                  +:+ entityName e +:+ " from Picqer")];
     requested := requested w ++ [entityName e];
     remote := tail (remote w); dbFaults := dbFaults w |}.

Definition rejectedWorld (e : Entity) (m : string) (w : World) : World :=
  {| dbPool := dbPool w; syncInProgress := syncInProgress w;
     lastSyncResults := lastSyncResults w; clock := clock w + 1;
     console :=
       (console w ++ [(Info, "Syncing " +:+ entityName e +:+ "...")]) ++
       [(Err, "Error in Picqer API request to " +:+ entityName e +:+ ": " +:+ m)];
     requested := requested w ++ [entityName e];
     remote := tail (remote w); dbFaults := dbFaults w |}.

Definition deletedWorld (e : Entity) (records : list RemoteRecord) (w : World)
    : World :=
  with_db (set_table e [] (dbPool w))
    (with_dbFaults (tail (dbFaults w)) (tick (fetchedWorld e records w))).

(** The events that settle the pending request and then each queued
    one: its answer, the full delay, the timer; one outcome of [oks] per
    request. *)
Fixpoint settleAll (d : Q) (oks : list bool) : list PicqerClient.Event :=
  match oks with
  | [] => []
  | ok :: rest =>
      PicqerClient.Answer 0 ok :: PicqerClient.Wait d :: PicqerClient.Fire 0
        :: settleAll d rest
  end.

(** A client that is not processing has nothing queued. *)
Definition Rested (l : PicqerClient.Loop) : Prop :=
  PicqerClient.processing (PicqerClient.client l) = false ->
  PicqerClient.requestQueue (PicqerClient.client l) = [].

(** ** Configuration, start-up and the status endpoint

    [process.env] is a finite map from names to strings; a variable that
    is not set reads as [undefined].  The database the pool reaches is a
    finite map from table names to tables. *)

Module Startup.

(** Truthiness of a value read from [process.env]. *)
Definition truthyVar (v : option string) : bool :=
  match v with
  | Some s => negb (String.eqb s "")
  | None => false
  end.

(** [a || b] *)
Definition orVar (a b : option string) : option string :=
  if truthyVar a then a else b.

Record DbConfig := {
  server : option string;
  portArg : option string;
  database : option string;
  user : option string;
  password : option string;
  encrypt : bool;
  trustServerCertificate : bool
}.

(** [dbConfig]; [portArg] is the argument handed to [parseInt]. *)
Definition dbConfig (env : gmap string string) : DbConfig :=
  {| server := orVar (env !! "DB_HOST") (env !! "SQL_SERVER");
     portArg := orVar (orVar (env !! "DB_PORT") (env !! "SQL_PORT")) (Some "1433");
     database := orVar (env !! "DB_NAME") (env !! "SQL_DATABASE");
     user := orVar (env !! "DB_USER") (env !! "SQL_USER");
     password := orVar (env !! "DB_PASSWORD") (env !! "SQL_PASSWORD");
     encrypt := true;
     trustServerCertificate := false |}.

Record PicqerConfig := {
  apiKey : option string;
  baseUrl : option string;
  requestsPerMinute : Z
}.

(** [picqerConfig] *)
Definition picqerConfig (env : gmap string string) : PicqerConfig :=
  {| apiKey := env !! "PICQER_API_KEY";
     baseUrl := orVar (env !! "PICQER_BASE_URL") (env !! "PICQER_API_URL");
     requestsPerMinute := 30 |}.

(** [process.env.PORT || 3000], as it prints. *)
Definition port (env : gmap string string) : string :=
  default "3000" (orVar (env !! "PORT") (Some "3000")).

(** A table: its column declarations and its rows. *)
Record Table := {
  columns : list (string * string);
  rows : list Row
}.

Definition productsColumns : list (string * string) :=
  [ ("id", "INT PRIMARY KEY"); ("idproduct", "VARCHAR(255)");
    ("name", "NVARCHAR(255)"); ("sku", "VARCHAR(255)");
    ("barcode", "VARCHAR(255)"); ("price", "DECIMAL(10, 2)");
    ("stock", "INT"); ("sync_date", "DATETIME DEFAULT GETDATE()") ].

Definition picklistsColumns : list (string * string) :=
  [ ("id", "INT PRIMARY KEY"); ("idpicklist", "VARCHAR(255)");
    ("status", "VARCHAR(50)"); ("created", "DATETIME");
    ("completed", "DATETIME"); ("warehouse_id", "INT");
    ("sync_date", "DATETIME DEFAULT GETDATE()") ].

Definition warehousesColumns : list (string * string) :=
  [ ("id", "INT PRIMARY KEY"); ("idwarehouse", "VARCHAR(255)");
    ("name", "NVARCHAR(255)"); ("sync_date", "DATETIME DEFAULT GETDATE()") ].

Definition syncStatusColumns : list (string * string) :=
  [ ("entity", "VARCHAR(50) PRIMARY KEY"); ("last_sync", "DATETIME");
    ("record_count", "INT"); ("status", "VARCHAR(50)") ].

(** The four statements of [createTablesIfNotExist], in order. *)
Definition tableDecls : list (string * list (string * string)) :=
  [ ("products", productsColumns); ("picklists", picklistsColumns);
    ("warehouses", warehousesColumns); ("sync_status", syncStatusColumns) ].

(** [IF NOT EXISTS (SELECT * FROM sys.tables WHERE name = '<name>')
     CREATE TABLE <name> (...)] *)
Definition createIfMissing (name : string) (cols : list (string * string))
    (db : gmap string Table) : gmap string Table :=
  match db !! name with
  | Some _ => db
  | None => <[name := {| columns := cols; rows := [] |}]> db
  end.

(** The process while it starts.
    - [dbPool]: whether the global holds a pool ([false] is [null]).
    - [tables]: the database [sql.connect] reaches.
    - [listening]: whether [app.listen] was called.
    - [connectError]: the error with which [sql.connect] rejects, if any.
    - [faults]: as [dbFaults], for the coming queries. *)
Record Boot := {
  dbPool : bool;
  tables : gmap string Table;
  listening : bool;
  console : list (Level * string);
  connectError : option string;
  faults : list (option string)
}.

Definition log (l : Level) (s : string) (b : Boot) : Boot :=
  {| dbPool := dbPool b; tables := tables b; listening := listening b;
     console := console b ++ [(l, s)]; connectError := connectError b;
     faults := faults b |}.

(** The queries of [createTablesIfNotExist] one after the other; the
    first one that rejects ends the sequence. *)
Fixpoint runCreates (decls : list (string * list (string * string))) (b : Boot)
    : Outcome unit * Boot :=
  match decls with
  | [] => (Ret tt, b)
  | (name, cols) :: rest =>
      match nextFault (faults b) with
      | Some m =>
          (Throw m,
           {| dbPool := dbPool b; tables := tables b; listening := listening b;
              console := console b; connectError := connectError b;
              faults := tail (faults b) |})
      | None =>
          runCreates rest
            {| dbPool := dbPool b;
               tables := createIfMissing name cols (tables b);
               listening := listening b; console := console b;
               connectError := connectError b; faults := tail (faults b) |}
      end
  end.

Definition createTablesIfNotExist (b : Boot) : Outcome unit * Boot :=
  match runCreates tableDecls b with
  | (Ret _, b') =>
      (Ret tt, log Info "Database tables created/verified successfully" b')
  | (Throw m, b') => (Throw m, log Err ("Error creating tables: " +:+ m) b')
  end.

Definition initializeDatabase (b : Boot) : bool * Boot :=
  let b1 := log Info "Initializing database connection pool..." b in
  match connectError b1 with
  | Some m => (false, log Err ("Error initializing database: " +:+ m) b1)
  | None =>
      let b2 :=
        log Info "Database connection pool initialized successfully"
          {| dbPool := true; tables := tables b1; listening := listening b1;
             console := console b1; connectError := connectError b1;
             faults := faults b1 |} in
      match createTablesIfNotExist b2 with
      | (Ret _, b3) => (true, b3)
      | (Throw m, b3) =>
          (false, log Err ("Error initializing database: " +:+ m) b3)
      end
  end.

(** The last statement of the module:
    [initializeDatabase().then(success => ...)]. *)
Definition start (env : gmap string string) (b : Boot) : Boot :=
  match initializeDatabase b with
  | (true, b1) =>
      log Info ("API available at: http://localhost:" +:+ port env +:+ "/api/")
        (log Info ("Dashboard available at: http://localhost:" +:+ port env
                     +:+ "/dashboard/")
           (log Info ("Simplified Picqer middleware running on port " +:+ port env)
              {| dbPool := dbPool b1; tables := tables b1; listening := true;
                 console := console b1; connectError := connectError b1;
                 faults := faults b1 |}))
  | (false, b1) =>
      log Err "Failed to initialize database, server not started" b1
  end.

(** The body of [GET /api/status]. *)
Record StatusBody := {
  online : bool;
  version : string;
  timestamp : Z;
  databaseState : string;
  picqerState : string
}.

Definition getStatus (env : gmap string string) (now : Z) (b : Boot) : StatusBody :=
  {| online := true;
     version := "1.0.0";
     timestamp := now;
     databaseState := if dbPool b then "connected" else "disconnected";
     picqerState :=
       if truthyVar (baseUrl (picqerConfig env)) then "configured"
       else "not configured" |}.

(** The process before the module's last statement has run. *)
Definition cold (db : gmap string Table) (connect : option string)
    (fs : list (option string)) : Boot :=
  {| dbPool := false; tables := db; listening := false; console := [];
     connectError := connect; faults := fs |}.

End Startup.

(** ** Further scenarios *)

(** Two warehouses are fetched and inserted over two old rows; then the
    call of the success upsert is rejected. *)
Definition upsertDown : World :=
  with_db
    {| products := []; picklists := [];
       warehouses :=
         [ {| row_id := 40; row_cols := []; sync_date := 1 |};
           {| row_id := 41; row_cols := []; sync_date := 1 |} ];
       sync_status :=
         {[ "warehouses" := {| last_sync := 2; record_count := 2;
                               status := "success" |} ]} |}
    (freshWorld [Fetched (mkRecords 2)]
       (None :: [None; None] ++ Some "Connection lost" :: [])).

(** The remote service is down for all three entities. *)
Definition remoteDown : World :=
  with_db syncedPicklists
    (freshWorld [FetchFailed "timeout"; FetchFailed "timeout"; FetchFailed "timeout"]
       []).

(** Three requests made in a row to a fresh client. *)
Definition threeCalls : list PicqerClient.Event :=
  [ PicqerClient.Call (getReq "products" 0);
    PicqerClient.Call (getReq "picklists" 1);
    PicqerClient.Call (getReq "warehouses" 2) ].

(** A process about to start against an empty database. *)
Definition coldStart : Startup.Boot := Startup.cold ∅ None [].

(** * Properties *)

(** ** Frame lemmas for the primitives *)

Ltac wsimpl :=
  cbn [dbPool syncInProgress lastSyncResults clock console requested remote
       dbFaults with_db with_flag with_last with_console with_dbFaults tick
       fst snd] in *.

Lemma errors_app c1 c2 : errors (c1 ++ c2) = (errors c1 + errors c2)%nat.
Proof. unfold errors. by rewrite List.filter_app, length_app. Qed.

Lemma Db_ext d d' :
  products d = products d' -> picklists d = picklists d' ->
  warehouses d = warehouses d' -> sync_status d = sync_status d' -> d = d'.
Proof. destruct d, d'; cbn; congruence. Qed.

Lemma table_set_table e e' rows d :
  table e' (set_table e rows d) = if decide (e' = e) then rows else table e' d.
Proof. destruct e, e'; reflexivity. Qed.

Lemma sync_status_set_table e rows d :
  sync_status (set_table e rows d) = sync_status d.
Proof. by destruct e. Qed.

Lemma table_set_sync_status e s d : table e (set_sync_status s d) = table e d.
Proof. by destruct e. Qed.

Lemma insertRow_cases e r d t :
  (exists m, insertRow e r d t = inl m) \/
  (exists d', insertRow e r d t = inr d' /\
     length (table e d') = S (length (table e d)) /\
     (forall e', e' <> e -> table e' d' = table e' d) /\
     sync_status d' = sync_status d).
Proof.
  unfold insertRow.
  destruct (existsb _ _); [left; eauto | right].
  eexists; split; [reflexivity |]. split; [| split].
  - rewrite table_set_table. case_decide; [| done].
    rewrite length_app. cbn. lia.
  - intros e' Hne. rewrite table_set_table. by case_decide.
  - apply sync_status_set_table.
Qed.

Lemma db_only_refl w : db_only w w.
Proof. by repeat split. Qed.

Lemma db_only_trans w1 w2 w3 : db_only w1 w2 -> db_only w2 w3 -> db_only w1 w3.
Proof.
  unfold db_only. intros (?&?&?&?) (?&?&?&?). repeat split; congruence.
Qed.

Lemma insertOne_spec e r n w :
  exists k w',
    insertOne e r n w = (Ret k, w') /\
    ((k = n + 1)%Z /\
       length (table e (dbPool w')) = S (length (table e (dbPool w))) /\
       errors (console w') = errors (console w)
     \/
     k = n /\
       length (table e (dbPool w')) = length (table e (dbPool w)) /\
       errors (console w') = S (errors (console w))) /\
    (forall e', e' <> e -> table e' (dbPool w') = table e' (dbPool w)) /\
    sync_status (dbPool w') = sync_status (dbPool w) /\
    clock w' = (clock w + 1)%Z /\
    dbFaults w' = tail (dbFaults w) /\
    db_only w w'.
Proof.
  unfold insertOne, try_catch, bind, query, dbCall, log, ret.
  set (w1 := with_dbFaults (tail (dbFaults w)) (tick w)).
  assert (Hskip : forall m,
    let w' := with_console (console w1 ++
                [(Err, "Error inserting " +:+ entitySingular e +:+ " "
                         +:+ pretty (remote_id r) +:+ ": " +:+ m)]) w1 in
    (n = n + 1 /\
       length (table e (dbPool w')) = S (length (table e (dbPool w))) /\
       errors (console w') = errors (console w)
     \/
     n = n /\
       length (table e (dbPool w')) = length (table e (dbPool w)) /\
       errors (console w') = S (errors (console w))) /\
    (forall e', e' <> e -> table e' (dbPool w') = table e' (dbPool w)) /\
    sync_status (dbPool w') = sync_status (dbPool w) /\
    clock w' = (clock w + 1)%Z /\
    dbFaults w' = tail (dbFaults w) /\
    db_only w w').
  { intros m w'. subst w' w1. wsimpl. split; [right |].
    - split; [done |]. split; [done |].
      rewrite errors_app. cbn. lia.
    - repeat split; done. }
  destruct (nextFault (dbFaults w)) as [m |].
  - eexists _, _. split; [reflexivity | apply Hskip].
  - destruct (insertRow_cases e r (dbPool w1) (clock w1))
      as [[m Hins] | (d' & Hins & Hlen & Hoth & Hst)]; rewrite Hins.
    + eexists _, _. split; [reflexivity | apply Hskip].
    + eexists _, _. split; [reflexivity |].
      subst w1. wsimpl. split; [left; done |]. repeat split; done.
Qed.

Lemma insertLoop_spec e records :
  forall n w, exists k w',
    insertLoop e records n w = (Ret k, w') /\
    (n <= k)%Z /\
    Z.of_nat (length (table e (dbPool w'))) =
      (Z.of_nat (length (table e (dbPool w))) + (k - n))%Z /\
    Z.of_nat (errors (console w')) =
      (Z.of_nat (errors (console w)) + (Z.of_nat (length records) - (k - n)))%Z /\
    (forall e', e' <> e -> table e' (dbPool w') = table e' (dbPool w)) /\
    sync_status (dbPool w') = sync_status (dbPool w) /\
    clock w' = (clock w + Z.of_nat (length records))%Z /\
    dbFaults w' = drop (length records) (dbFaults w) /\
    db_only w w'.
Proof.
  induction records as [| r rest IH]; intros n w.
  - exists n, w. cbn. rewrite drop_0.
    repeat split; try lia; try done.
  - destruct (insertOne_spec e r n w)
      as (k1 & w1 & Heq1 & Hcnt & Hoth1 & Hst1 & Hck1 & Hf1 & Hdb1).
    destruct (IH k1 w1)
      as (k & w' & Heq & Hle & Hlen & Herr & Hoth & Hst & Hck & Hf & Hdb).
    exists k, w'. cbn [insertLoop]. unfold bind at 1. rewrite Heq1.
    split; [exact Heq |].
    cbn [length]. rewrite Nat2Z.inj_succ.
    split; [lia |]. split; [lia |]. split; [lia |].
    split; [intros e' Hne; rewrite Hoth, Hoth1; done |].
    split; [congruence |]. split; [lia |].
    split; [rewrite Hf, Hf1; destruct (dbFaults w); cbn; rewrite ?drop_nil; done |].
    eapply db_only_trans; eauto.
Qed.

(** ** The [catch] block of an entity sync *)

Lemma getEntity_request e : getEntity e = request "get" (entityName e).
Proof. by destruct e. Qed.

Lemma syncHandler_spec e m w :
  exists w',
    syncHandler e m w = (Ret (SyncErr m), w') /\
    (forall e', table e' (dbPool w') = table e' (dbPool w)) /\
    db_only w w' /\
    match upsertFailure (dbFaults w) m with
    | None =>
        sync_status (dbPool w') =
          <[entityName e :=
              errorRow (sync_status (dbPool w) !! entityName e) (clock w + 1) m]>
            (sync_status (dbPool w)) /\
        console w' =
          (console w ++
             [(Err, "Error syncing " +:+ entityName e +:+ ": " +:+ m)])%list
    | Some sm =>
        sync_status (dbPool w') = sync_status (dbPool w) /\
        console w' =
          (console w ++
             [(Err, "Error syncing " +:+ entityName e +:+ ": " +:+ m);
              (Err, "Error updating sync status: " +:+ sm)])%list
    end.
Proof.
  unfold syncHandler, try_catch, bind, query, dbCall, log, ret, upsertFailure.
  wsimpl.
  destruct (nextFault (dbFaults w)) as [sm |].
  - eexists. split; [reflexivity |]. wsimpl.
    split; [done |]. split; [by repeat split |].
    split; [done |]. by rewrite <- app_assoc.
  - unfold upsertError, putStatus, errorRow. cbn [status].
    destruct (fits_status ("error: " +:+ String.substring 0 255 m)) eqn:Hfit.
    + destruct (sync_status (dbPool w) !! entityName e) as [old |];
        eexists; (split; [reflexivity |]); wsimpl;
        (split; [intros e'; apply table_set_sync_status |]);
        (split; [by repeat split |]); done.
    + destruct (sync_status (dbPool w) !! entityName e) as [old |];
        eexists; (split; [reflexivity |]); wsimpl;
        (split; [done |]); (split; [by repeat split |]);
        (split; [done |]); by rewrite <- app_assoc.
Qed.

(** ** The [try] block of an entity sync *)

Lemma db_only_same_globals w w' : db_only w w' -> same_globals w w'.
Proof. intros (? & ? & _). by split. Qed.

Lemma syncBody_early e w m :
  fetchOrDeleteFailure w = Some m ->
  exists w1,
    syncBody e w = (Throw m, w1) /\
    dbPool w1 = dbPool w /\
    dbFaults w1 = faultsAfterFailure w /\
    same_globals w w1.
Proof.
  unfold fetchOrDeleteFailure, fetchFailure, deleteFailure, faultsAfterFailure.
  unfold syncBody. rewrite getEntity_request.
  unfold bind, log, request, query, dbCall. wsimpl.
  destruct (remote w) as [| [records | fm] rest]; intros Hm.
  - injection Hm as <-. eexists. split; [reflexivity |]. by repeat split.
  - wsimpl. rewrite Hm. eexists. split; [reflexivity |]. by repeat split.
  - injection Hm as <-. eexists. split; [reflexivity |]. by repeat split.
Qed.

(** The literal ['success'] fits the status column, so the success
    upsert commits whenever it is run. *)
Lemma upsertSuccess_commits e n d t :
  upsertSuccess e n d t =
    inr (set_sync_status
           (<[entityName e :=
                {| last_sync := t; record_count := n; status := "success" |}]>
              (sync_status d)) d).
Proof. unfold upsertSuccess. by destruct (sync_status d !! entityName e). Qed.

Lemma syncBody_inv e w r w' :
  syncBody e w = (r, w') ->
  same_globals w w' /\
  (forall e', e' <> e -> table e' (dbPool w') = table e' (dbPool w)) /\
  match r with
  | Ret res =>
      exists records rest n,
        remote w = Fetched records :: rest /\
        res = SyncOk n /\
        Z.of_nat (length (table e (dbPool w'))) = n /\
        (Z.of_nat (errors (console w')) =
           Z.of_nat (errors (console w)) + (Z.of_nat (length records) - n))%Z /\
        sync_status (dbPool w') =
          <[entityName e :=
              {| last_sync := clock w'; record_count := n; status := "success" |}]>
            (sync_status (dbPool w))
  | Throw m => sync_status (dbPool w') = sync_status (dbPool w)
  end.
Proof.
  unfold syncBody. rewrite getEntity_request.
  unfold bind at 1. unfold log at 1. unfold bind at 1. unfold request.
  wsimpl.
  destruct (remote w) as [| [records | fm] rest] eqn:Hrem.
  - intros [= <- <-]. wsimpl. repeat split; done.
  - unfold bind at 1. unfold log at 1. unfold bind at 1.
    unfold query at 1. unfold dbCall. wsimpl.
    destruct (nextFault (dbFaults w)) as [dm |].
    { intros [= <- <-]. wsimpl. repeat split; done. }
    cbn [deleteAll].
    set (w2 := with_db _ _).
    unfold bind at 1.
    destruct (insertLoop_spec e records 0 w2)
      as (k & w3 & Heq & Hle & Hlen & Herr & Hoth & Hst & Hck & Hf & Hdb).
    rewrite Heq.
    unfold bind at 1. unfold query, dbCall.
    assert (Htab2 : table e (dbPool w2) = []).
    { subst w2. wsimpl. rewrite table_set_table. by case_decide. }
    assert (Hoth2 : forall e', e' <> e -> table e' (dbPool w2) = table e' (dbPool w)).
    { intros e' Hne. subst w2. wsimpl. rewrite table_set_table. by case_decide. }
    assert (Hst2 : sync_status (dbPool w2) = sync_status (dbPool w)).
    { subst w2. wsimpl. apply sync_status_set_table. }
    assert (Herr2 : errors (console w2) = errors (console w)).
    { subst w2. wsimpl. rewrite !errors_app. cbn. lia. }
    assert (Hg2 : same_globals w w3).
    { destruct Hdb as (Ha & Hb & _). subst w2. wsimpl. by split. }
    destruct (nextFault (dbFaults w3)) as [um |].
    { intros [= <- <-]. wsimpl.
      split; [done |]. split; [| congruence].
      intros e' Hne. rewrite Hoth, Hoth2; done. }
    rewrite upsertSuccess_commits.
    unfold bind, log, ret; wsimpl; intros [= <- <-]; wsimpl.
    split; [done |].
    split; [intros e' Hne; rewrite table_set_sync_status, Hoth, Hoth2; done |].
    exists records, rest, k.
    split; [done |]. split; [done |].
    rewrite table_set_sync_status, !errors_app, Hst, Hst2.
    rewrite Htab2 in Hlen. cbn [length] in Hlen. cbn.
    split; [lia |]. split; [lia |]. done.
  - intros [= <- <-]. wsimpl. repeat split; done.
Qed.

(** ** An entity sync as a whole *)

Lemma syncEntity_ok_inv e w n w' :
  syncEntity e w = (Ret (SyncOk n), w') ->
  syncBody e w = (Ret (SyncOk n), w').
Proof.
  unfold syncEntity, try_catch.
  destruct (syncBody e w) as [[res | m] w1] eqn:Hbody; [done |].
  destruct (syncHandler_spec e m w1) as (w2 & Hh & _). rewrite Hh. done.
Qed.

Lemma syncEntity_err_inv e w m w' :
  syncEntity e w = (Ret (SyncErr m), w') ->
  exists w1, syncBody e w = (Throw m, w1) /\
             syncHandler e m w1 = (Ret (SyncErr m), w').
Proof.
  unfold syncEntity, try_catch.
  destruct (syncBody e w) as [[res | m1] w1] eqn:Hbody.
  - intros [= -> <-].
    destruct (syncBody_inv _ _ _ _ Hbody) as (_ & _ & (? & ? & ? & _ & ? & _)).
    done.
  - intros Hh. exists w1.
    destruct (syncHandler_spec e m1 w1) as (w2 & Hh2 & _).
    rewrite Hh2 in Hh. injection Hh as -> ->. done.
Qed.

(** An entity sync always settles with a result and never touches the
    process globals. *)
Lemma syncEntity_total e w :
  exists res w', syncEntity e w = (Ret res, w') /\ same_globals w w'.
Proof.
  unfold syncEntity, try_catch.
  destruct (syncBody e w) as [[res | m] w1] eqn:Hbody.
  - exists res, w1. split; [done |]. by apply syncBody_inv in Hbody as (? & _).
  - destruct (syncHandler_spec e m w1) as (w2 & Hh & _ & Hdb & _).
    exists (SyncErr m), w2. split; [done |].
    apply syncBody_inv in Hbody as ((? & ?) & _).
    destruct Hdb as (? & ? & _). split; congruence.
Qed.

(** A sync that fails at the fetch or at the DELETE ends in the [catch]
    block with the database as it was. *)
Lemma syncEntity_early e w m :
  fetchOrDeleteFailure w = Some m ->
  exists w1 w',
    syncEntity e w = (Ret (SyncErr m), w') /\
    syncHandler e m w1 = (Ret (SyncErr m), w') /\
    dbPool w1 = dbPool w /\
    dbFaults w1 = faultsAfterFailure w.
Proof.
  intros Hm.
  destruct (syncBody_early e w m Hm) as (w1 & Hbody & Hdb & Hf & _).
  destruct (syncHandler_spec e m w1) as (w' & Hh & _).
  exists w1, w'. unfold syncEntity, try_catch. rewrite Hbody. done.
Qed.

Lemma prefix_error s : String.prefix "error: " ("error: " +:+ s) = true.
Proof. cbn. by destruct s. Qed.

(** ** The orchestrator *)

(** C1. For every run of [syncAll] that is not rejected, the combined
    result carries the results of the three entity syncs run in the order
    products, picklists, warehouses, and its overall [success] flag is
    true exactly when at least one of the three results has
    [success = true]; it is false only when all three fail. *)
Theorem syncAll_success_is_any w :
  syncInProgress w = false ->
  exists t p k h w1 w2 w3 w',
    syncProducts (started w) = (Ret p, w1) /\
    syncPicklists w1 = (Ret k, w2) /\
    syncWarehouses w2 = (Ret h, w3) /\
    syncAll w =
      (Ret (Combined t p k h (success p || success k || success h)), w') /\
    lastSyncResults w' =
      Combined t p k h (success p || success k || success h) /\
    (allSuccess (Combined t p k h (success p || success k || success h)) = true
       <-> success p = true \/ success k = true \/ success h = true) /\
    (allSuccess (Combined t p k h (success p || success k || success h)) = false
       <-> success p = false /\ success k = false /\ success h = false).
Proof.
  intros Hidle.
  destruct (syncEntity_total Products (started w)) as (p & w1 & Hp & _).
  destruct (syncEntity_total Picklists w1) as (k & w2 & Hk & _).
  destruct (syncEntity_total Warehouses w2) as (h & w3 & Hh & _).
  exists (clock w3), p, k, h, w1, w2, w3.
  eexists. split; [exact Hp |]. split; [exact Hk |]. split; [exact Hh |].
  split.
  - unfold syncAll. rewrite Hidle.
    unfold bind at 1. unfold setSyncInProgress at 1.
    unfold bind at 1. unfold log at 1.
    fold (started w).
    unfold try_catch, syncProducts, syncPicklists, syncWarehouses.
    unfold bind at 1. unfold syncProducts in Hp. rewrite Hp.
    unfold bind at 1. unfold syncPicklists in Hk. rewrite Hk.
    unfold bind at 1. unfold syncWarehouses in Hh. rewrite Hh.
    unfold bind, newDate, setLastSyncResults, log, setSyncInProgress, ret.
    wsimpl. reflexivity.
  - wsimpl. split; [reflexivity |]. cbn [allSuccess]. split.
    + rewrite !orb_true_iff. tauto.
    + rewrite !orb_false_iff. tauto.
Qed.

(** C3. An invocation of [syncAll] while the in-flight flag is set
    returns [{success: false, error: "Sync already in progress"}] at
    once: no time passes, no request is made to the remote service (none
    is queued, none of the scripted answers is consumed), the database is
    not called, and the flag and the last results stay as they were; only
    the console gets the skip message. *)
Theorem syncAll_rejected_when_running w :
  syncInProgress w = true ->
  exists w',
    syncAll w = (Ret (Rejected "Sync already in progress"), w') /\
    w' = with_console
           (console w ++ [(Info, "Sync already in progress, skipping request")]) w /\
    dbPool w' = dbPool w /\
    requested w' = requested w /\
    remote w' = remote w /\
    dbFaults w' = dbFaults w /\
    clock w' = clock w /\
    syncInProgress w' = true /\
    lastSyncResults w' = lastSyncResults w.
Proof.
  intros Hrun. eexists. unfold syncAll. rewrite Hrun.
  unfold bind, log, ret. split; [reflexivity |].
  split; [reflexivity |]. wsimpl. by repeat split.
Qed.

(** ** Entity syncs: success *)

Lemma sync_success_row e w n w' :
  syncEntity e w = (Ret (SyncOk n), w') ->
  sync_status (dbPool w') !! entityName e =
    Some {| last_sync := clock w'; record_count := n; status := "success" |}.
Proof.
  intros Hok. apply syncEntity_ok_inv in Hok.
  destruct (syncBody_inv _ _ _ _ Hok)
    as (_ & _ & (records & rest & n' & _ & Hres & _ & _ & Hst)).
  injection Hres as <-. rewrite Hst. apply lookup_insert_eq.
Qed.

(** C5. After a successful sync of an entity the fetch had returned a
    collection, the entity's table holds exactly [count] rows, [count] is
    the number of source records minus the per-row failures (each of which
    left one [console.error] line), the [sync_status] row of the entity
    has [record_count = count] and status ["success"], and the result is
    [{success: true, count}].  A row whose INSERT fails never aborts the
    loop: each pass ends normally, either one row and one count further or
    with one more logged error and the same count. *)
Theorem sync_success_counts e w n w' :
  syncEntity e w = (Ret (SyncOk n), w') ->
  (exists records rest,
     remote w = Fetched records :: rest /\
     Z.of_nat (length (table e (dbPool w'))) = n /\
     n = (Z.of_nat (length records)
          - (Z.of_nat (errors (console w')) - Z.of_nat (errors (console w))))%Z /\
     sync_status (dbPool w') !! entityName e =
       Some {| last_sync := clock w'; record_count := n; status := "success" |}) /\
  (forall r k v,
     exists k' v',
       insertOne e r k v = (Ret k', v') /\
       ((k' = k + 1)%Z /\
          length (table e (dbPool v')) = S (length (table e (dbPool v))) /\
          errors (console v') = errors (console v)
        \/
        k' = k /\
          length (table e (dbPool v')) = length (table e (dbPool v)) /\
          errors (console v') = S (errors (console v)))).
Proof.
  intros Hok. split.
  - apply syncEntity_ok_inv in Hok.
    destruct (syncBody_inv _ _ _ _ Hok)
      as (_ & _ & (records & rest & n' & Hrem & Hres & Hlen & Herr & Hst)).
    injection Hres as <-.
    exists records, rest. split; [done |]. split; [done |]. split; [lia |].
    rewrite Hst. apply lookup_insert_eq.
  - intros r k v.
    destruct (insertOne_spec e r k v) as (k' & v' & Heq & Hcnt & _).
    exists k', v'. by split.
Qed.

(** ** Entity syncs: failure at the fetch or at the DELETE *)

(** C2, as the code has it.  When an entity sync fails at the fetch or at
    the DELETE with message [m], the [catch] block runs and the result is
    [{success: false, error: m}]; the tables are as before; and when the
    error upsert itself does not fail, the [sync_status] row of the
    entity has status ["error: "] followed by the first 255 characters of
    [m]. *)
Theorem sync_failure_reports_error e w m :
  fetchOrDeleteFailure w = Some m ->
  exists w',
    syncEntity e w = (Ret (SyncErr m), w') /\
    (forall e', table e' (dbPool w') = table e' (dbPool w)) /\
    (statusUpsertFailure w m = None ->
     exists row,
       sync_status (dbPool w') !! entityName e = Some row /\
       status row = "error: " +:+ String.substring 0 255 m).
Proof.
  intros Hm.
  destruct (syncEntity_early e w m Hm) as (w1 & w' & Hsync & Hh & Hdb & Hf).
  exists w'. split; [done |].
  destruct (syncHandler_spec e m w1) as (w2 & Hh2 & Htab & _ & Hup).
  rewrite Hh in Hh2. injection Hh2 as <-.
  split; [intros e'; by rewrite Htab, Hdb |].
  unfold statusUpsertFailure. rewrite <- Hf. intros Hnone.
  rewrite Hnone in Hup. destruct Hup as (Hst & _).
  eexists. split; [rewrite Hst; apply lookup_insert_eq | done].
Qed.

(** C4, as the code has it.  When the fetch for an entity fails, its
    sync leaves every stored row of every table as it was, and when the
    error upsert itself does not fail, the entity's [sync_status] status
    afterwards begins with ["error: "]. *)
Theorem fetch_failure_keeps_rows e w m :
  fetchFailure w = Some m ->
  exists w',
    syncEntity e w = (Ret (SyncErr m), w') /\
    (forall e', table e' (dbPool w') = table e' (dbPool w)) /\
    (statusUpsertFailure w m = None ->
     exists row,
       sync_status (dbPool w') !! entityName e = Some row /\
       String.prefix "error: " (status row) = true).
Proof.
  intros Hfetch.
  assert (Hm : fetchOrDeleteFailure w = Some m).
  { unfold fetchOrDeleteFailure. by rewrite Hfetch. }
  destruct (syncEntity_early e w m Hm) as (w1 & w' & Hsync & Hh & Hdb & Hf).
  exists w'. split; [done |].
  destruct (syncHandler_spec e m w1) as (w2 & Hh2 & Htab & _ & Hup).
  rewrite Hh in Hh2. injection Hh2 as <-.
  split; [intros e'; by rewrite Htab, Hdb |].
  unfold statusUpsertFailure. rewrite <- Hf. intros Hnone.
  rewrite Hnone in Hup. destruct Hup as (Hst & _).
  eexists. split; [rewrite Hst; apply lookup_insert_eq |].
  apply prefix_error.
Qed.

(** C6. When an entity sync fails at the fetch or at the DELETE with
    message [m] and the error upsert then fails with [sm], the secondary
    failure is logged, nothing is stored, and the result is still
    [{success: false, error: m}]. *)
Theorem secondary_failure_is_swallowed e w m sm :
  fetchOrDeleteFailure w = Some m ->
  statusUpsertFailure w m = Some sm ->
  exists w',
    syncEntity e w = (Ret (SyncErr m), w') /\
    last (console w') = Some (Err, "Error updating sync status: " +:+ sm) /\
    dbPool w' = dbPool w.
Proof.
  intros Hm Hsm.
  destruct (syncEntity_early e w m Hm) as (w1 & w' & Hsync & Hh & Hdb & Hf).
  exists w'. split; [done |].
  destruct (syncHandler_spec e m w1) as (w2 & Hh2 & Htab & _ & Hup).
  rewrite Hh in Hh2. injection Hh2 as <-.
  unfold statusUpsertFailure in Hsm. rewrite <- Hf in Hsm.
  rewrite Hsm in Hup. destruct Hup as (Hst & Hcon).
  split; [| rewrite <- Hdb; apply Db_ext;
             [apply (Htab Products) | apply (Htab Picklists)
             | apply (Htab Warehouses) | done]].
  rewrite Hcon.
  change [(Err, "Error syncing " +:+ entityName e +:+ ": " +:+ m);
          (Err, "Error updating sync status: " +:+ sm)]
    with ([(Err, "Error syncing " +:+ entityName e +:+ ": " +:+ m)] ++
          [(Err, "Error updating sync status: " +:+ sm)])%list.
  rewrite app_assoc. apply last_snoc.
Qed.

(** ** The in-flight flag is invisible to an entity sync *)

Lemma flag_blind_ret {A} (a : A) : flag_blind (ret a).
Proof. by intros b w. Qed.

Lemma flag_blind_bind {A B} (c : M A) (k : A -> M B) :
  flag_blind c -> (forall a, flag_blind (k a)) -> flag_blind (bind c k).
Proof.
  intros Hc Hk b w. unfold bind. rewrite Hc.
  destruct (c w) as [[a | m] w1]; cbn [fst snd]; [apply Hk | done].
Qed.

Lemma flag_blind_try_catch {A} (c : M A) (h : string -> M A) :
  flag_blind c -> (forall m, flag_blind (h m)) -> flag_blind (try_catch c h).
Proof.
  intros Hc Hh b w. unfold try_catch. rewrite Hc.
  destruct (c w) as [[a | m] w1]; cbn [fst snd]; [done | apply Hh].
Qed.

Lemma flag_blind_log l s : flag_blind (log l s).
Proof. by intros b w. Qed.

Lemma flag_blind_query stmt : flag_blind (query stmt).
Proof.
  intros b w. unfold query, dbCall. wsimpl.
  destruct (nextFault (dbFaults w)); [done |].
  by destruct (stmt (dbPool w) (clock w + 1)).
Qed.

Lemma flag_blind_request mth ep : flag_blind (request mth ep).
Proof.
  intros b w. unfold request. wsimpl.
  by destruct (remote w) as [| [records | m] rest].
Qed.

Lemma flag_blind_insertLoop e records : forall n, flag_blind (insertLoop e records n).
Proof.
  induction records as [| r rest IH]; intros n; cbn [insertLoop].
  - apply flag_blind_ret.
  - apply flag_blind_bind; [| done].
    apply flag_blind_try_catch.
    + apply flag_blind_bind; [apply flag_blind_query |].
      intros _. apply flag_blind_ret.
    + intros m. apply flag_blind_bind; [apply flag_blind_log |].
      intros _. apply flag_blind_ret.
Qed.

Lemma flag_blind_syncEntity e : flag_blind (syncEntity e).
Proof.
  apply flag_blind_try_catch.
  - unfold syncBody. rewrite getEntity_request.
    repeat first
      [ apply flag_blind_ret | apply flag_blind_log | apply flag_blind_query
      | apply flag_blind_request | apply flag_blind_insertLoop
      | apply flag_blind_bind; [| intros ?] ].
  - intros m. unfold syncHandler.
    repeat first
      [ apply flag_blind_ret | apply flag_blind_log | apply flag_blind_query
      | apply flag_blind_try_catch; [| intros ?]
      | apply flag_blind_bind; [| intros ?] ].
Qed.

(** ** The entity endpoint *)

(** C8. [POST /api/sync/:entity] with a path parameter other than
    [products], [picklists] and [warehouses] answers 400 with
    [{success: false, message: "Unknown entity type: <entity>"}] and
    starts nothing: no promise is left running and the world is as
    before, the request line on the console apart. *)
Theorem unknown_entity_is_refused entity w :
  entity <> "products" -> entity <> "picklists" -> entity <> "warehouses" ->
  exists w1,
    postSyncEntity entity w =
      ({| code := 400; body := Refused ("Unknown entity type: " +:+ entity) |},
       None, w1) /\
    w1 = with_console
           (console w ++ [(Info, entity +:+ " sync request received")]) w /\
    runBackground None w1 = w1 /\
    requested w1 = requested w /\
    dbPool w1 = dbPool w /\
    syncInProgress w1 = syncInProgress w.
Proof.
  intros H1 H2 H3. eexists. unfold postSyncEntity.
  rewrite (proj2 (String.eqb_neq _ _) H1), (proj2 (String.eqb_neq _ _) H2),
    (proj2 (String.eqb_neq _ _) H3).
  split; [reflexivity |]. by repeat split.
Qed.

(** C9. [POST /api/sync/:entity] for one of the three entities starts
    that entity's sync whatever the in-flight flag is, and the sync runs
    to its result without reading or writing the flag: with the flag
    forced to either value, set by a running [syncAll] included, the
    result and the world it leaves are the same, and the flag is left as
    it was found. *)
Theorem entity_sync_ignores_flag e w :
  exists w1 res w',
    postSyncEntity (entityName e) w =
      ({| code := 200; body := Started ("Sync started for " +:+ entityName e) |},
       Some (RunEntity e), w1) /\
    syncInProgress w1 = syncInProgress w /\
    syncEntity e w1 = (Ret res, w') /\
    runBackground (Some (RunEntity e)) w1 = w' /\
    syncInProgress w' = syncInProgress w /\
    (forall b,
       postSyncEntity (entityName e) (with_flag b w) =
         ({| code := 200;
             body := Started ("Sync started for " +:+ entityName e) |},
          Some (RunEntity e), with_flag b w1) /\
       syncEntity e (with_flag b w1) = (Ret res, with_flag b w')) /\
    (forall w0, syncInProgress (started w0) = true /\
       exists res0 v,
         syncEntity e (started w0) = (Ret res0, v) /\ syncInProgress v = true).
Proof.
  destruct (syncEntity_total e
              (with_console
                 (console w ++ [(Info, entityName e +:+ " sync request received")]) w))
    as (res & w' & Hrun & Hflag & _).
  eexists _, res, w'.
  split; [by destruct e |]. split; [done |]. split; [exact Hrun |].
  split; [cbn [runBackground]; by rewrite Hrun |]. split; [exact Hflag |].
  split.
  - intros b. split; [by destruct e |].
    change (with_flag b (with_console ?c w)) with (with_console c (with_flag b w)).
    change (with_console ?c (with_flag b w)) with (with_flag b (with_console c w)).
    rewrite flag_blind_syncEntity, Hrun. done.
  - intros w0. split; [done |].
    destruct (syncEntity_total e (started w0)) as (res0 & v & Hv & Hf & _).
    exists res0, v. split; [done |]. by rewrite Hf.
Qed.

(** ** The stats reporter after a failed sync *)

Lemma addDefaults_lookup st e :
  addDefaults st !! entityName e = Some (default notSynced (st !! entityName e)).
Proof.
  unfold addDefaults. cbn [foldl].
  destruct e; cbn [entityName];
    repeat case_match; simplify_map_eq; done.
Qed.

Lemma entityName_not_proto e : "__proto__" <> entityName e.
Proof. by destruct e. Qed.

(** When its query goes through the reporter answers 200, and for each
    of the three entities with the stored row or the placeholder. *)
Lemma getStats_ok w :
  nextFault (dbFaults w) = None ->
  exists st v,
    getStats w =
      ({| code := 200; body := Stats st (syncInProgress w) |}, v) /\
    forall e,
      st !! entityName e =
        Some (default notSynced (statOfRow <$> sync_status (dbPool w) !! entityName e)).
Proof.
  intros Hf. unfold getStats, selectSyncStatus, dbCall. rewrite Hf.
  eexists _, _. split; [reflexivity |]. intros e. wsimpl.
  rewrite addDefaults_lookup, lookup_delete_ne by apply entityName_not_proto.
  by rewrite lookup_fmap.
Qed.

(** What a failed sync can have done to [sync_status]: nothing, or the
    error upsert over the previous row of the entity. *)
Lemma syncEntity_err_status e w m w' :
  syncEntity e w = (Ret (SyncErr m), w') ->
  sync_status (dbPool w') = sync_status (dbPool w) \/
  exists t,
    sync_status (dbPool w') =
      <[entityName e := errorRow (sync_status (dbPool w) !! entityName e) t m]>
        (sync_status (dbPool w)).
Proof.
  intros Herr. apply syncEntity_err_inv in Herr as (w1 & Hbody & Hh).
  apply syncBody_inv in Hbody as (_ & _ & Hst1).
  destruct (syncHandler_spec e m w1) as (w2 & Hh2 & _ & _ & Hup).
  rewrite Hh in Hh2. injection Hh2 as <-.
  destruct (upsertFailure (dbFaults w1) m); destruct Hup as (Hst & _).
  - left. congruence.
  - right. exists (clock w1 + 1)%Z. by rewrite Hst, Hst1.
Qed.

(** The [catch] block runs in the world the [try] block left, in which
    [sync_status] is still as the sync found it. *)
Lemma syncEntity_err_rows e w m w' :
  syncEntity e w = (Ret (SyncErr m), w') ->
  exists w1,
    syncBody e w = (Throw m, w1) /\
    (fetchOrDeleteFailure w = Some m ->
     upsertFailure (dbFaults w1) m = statusUpsertFailure w m) /\
    match upsertFailure (dbFaults w1) m with
    | None =>
        sync_status (dbPool w') =
          <[entityName e :=
              errorRow (sync_status (dbPool w) !! entityName e) (clock w1 + 1) m]>
            (sync_status (dbPool w))
    | Some _ => sync_status (dbPool w') = sync_status (dbPool w)
    end.
Proof.
  intros Herr. destruct (syncEntity_err_inv _ _ _ _ Herr) as (w1 & Hbody & Hh).
  exists w1. split; [exact Hbody |]. split.
  - intros Hm. destruct (syncBody_early e w m Hm) as (w1' & Hbody' & _ & Hf & _).
    rewrite Hbody in Hbody'. injection Hbody' as <-.
    unfold statusUpsertFailure. by rewrite Hf.
  - destruct (syncBody_inv _ _ _ _ Hbody) as (_ & _ & Hst1).
    destruct (syncHandler_spec e m w1) as (w2 & Hh2 & _ & _ & Hup).
    rewrite Hh in Hh2. injection Hh2 as <-.
    destruct (upsertFailure (dbFaults w1) m); destruct Hup as (Hst & _);
      rewrite Hst, Hst1; done.
Qed.

(** C10, as the code has it.  A failed sync changes the entity's
    [sync_status] row only through the error upsert, issued in the world
    [w1] the [try] block left.  If the row exists the row afterwards has
    the [record_count] it had, and whenever the error upsert does not
    itself fail it is, by the UPDATE branch, the old row with new
    [last_sync] and the error status.  If no row exists and the error
    upsert does not fail, the INSERT branch stores [record_count = 0].
    So after a failed sync that follows a successful one with count [n],
    the stats reporter still shows [totalCount = n], next to the error
    status whenever the error upsert did not itself fail. *)
Theorem error_upsert_keeps_record_count e w m w' :
  syncEntity e w = (Ret (SyncErr m), w') ->
  exists w1,
    syncBody e w = (Throw m, w1) /\
    (fetchOrDeleteFailure w = Some m ->
     upsertFailure (dbFaults w1) m = statusUpsertFailure w m) /\
    (forall old,
       sync_status (dbPool w) !! entityName e = Some old ->
       exists row,
         sync_status (dbPool w') !! entityName e = Some row /\
         record_count row = record_count old /\
         (upsertFailure (dbFaults w1) m = None ->
          row = {| last_sync := clock w1 + 1; record_count := record_count old;
                   status := "error: " +:+ String.substring 0 255 m |})) /\
    (sync_status (dbPool w) !! entityName e = None ->
     upsertFailure (dbFaults w1) m = None ->
     sync_status (dbPool w') !! entityName e =
       Some {| last_sync := clock w1 + 1; record_count := 0;
               status := "error: " +:+ String.substring 0 255 m |}) /\
    (forall w0 n v,
       syncEntity e w0 = (Ret (SyncOk n), v) -> dbPool w = dbPool v ->
       nextFault (dbFaults w') = None ->
       exists st v' entry,
         getStats w' =
           ({| code := 200; body := Stats st (syncInProgress w') |}, v') /\
         st !! entityName e = Some entry /\
         totalCount entry = n /\
         (upsertFailure (dbFaults w1) m = None ->
          statStatus entry = "error: " +:+ String.substring 0 255 m)).
Proof.
  intros Herr.
  destruct (syncEntity_err_rows _ _ _ _ Herr) as (w1 & Hbody & Hearly & Hup).
  exists w1. split; [exact Hbody |]. split; [exact Hearly |].
  assert (Hold : forall old,
    sync_status (dbPool w) !! entityName e = Some old ->
    exists row,
      sync_status (dbPool w') !! entityName e = Some row /\
      record_count row = record_count old /\
      (upsertFailure (dbFaults w1) m = None ->
       row = {| last_sync := clock w1 + 1; record_count := record_count old;
                status := "error: " +:+ String.substring 0 255 m |})).
  { intros old Hlook.
    destruct (upsertFailure (dbFaults w1) m) as [sm |]; rewrite Hup.
    - exists old. split; [done |]. split; done.
    - rewrite Hlook. eexists. rewrite lookup_insert_eq. split; [reflexivity |].
      unfold errorRow. cbn [record_count]. split; done. }
  split; [exact Hold |]. split.
  - intros Hnone Hwent. rewrite Hwent in Hup.
    by rewrite Hup, Hnone, lookup_insert_eq.
  - intros w0 n v Hok Hdb Hsel.
    pose proof (sync_success_row e w0 n v Hok) as Hrow.
    rewrite <- Hdb in Hrow.
    destruct (Hold _ Hrow) as (row & Hlook & Hcount & Hwent).
    destruct (getStats_ok w' Hsel) as (st & v' & Hstats & Hst).
    exists st, v', (statOfRow row).
    split; [exact Hstats |].
    split; [by rewrite Hst, Hlook |].
    split; [exact Hcount |].
    intros Hnone. by rewrite (Hwent Hnone).
Qed.

(** ** The request queue *)

Module PicqerClientProps.
Import PicqerClient.
Local Open Scope Q_scope.

Lemma rpm_processNextRequest l :
  requestsPerMinute (client (processNextRequest l)) = requestsPerMinute (client l).
Proof. unfold processNextRequest. by destruct (requestQueue (client l)). Qed.

Lemma rpm_step l ev :
  requestsPerMinute (client (step l ev)) = requestsPerMinute (client l).
Proof.
  destruct ev as [r | i ok | i | d]; cbn [step].
  - unfold request. cbn [processing client with_queue].
    destruct (negb _); [by rewrite rpm_processNextRequest |]; done.
  - unfold answer. by destruct (inflight l !! i).
  - unfold fire. destruct (timers l !! i); [| done].
    destruct (Qle_bool _ _); [by rewrite rpm_processNextRequest | done].
  - unfold wait. by destruct (Qle_bool _ _).
Qed.

Lemma delay_step l ev : delay (client (step l ev)) = delay (client l).
Proof. unfold delay. by rewrite rpm_step. Qed.

(** [processNextRequest] from a state with nothing pending. *)
Lemma Inv_processNextRequest l :
  inflight l = [] -> timers l = [] ->
  submitted l = (rev (map snd (dispatched l)) ++ requestQueue (client l))%list ->
  (map fst (settled l) = rev (map snd (dispatched l)))%list ->
  spaced (delay (client l)) (map fst (dispatched l)) ->
  (forall t, lastDispatch l = Some t -> t <= time l) ->
  (forall t, lastDispatch l = Some t -> t + delay (client l) <= time l) ->
  Inv (processNextRequest l).
Proof.
  intros Hin Htm Hfifo Hset Hsp Hpast Hidle.
  unfold processNextRequest, Inv, lastDispatch, delay in *.
  destruct (requestQueue (client l)) as [| r rest] eqn:Hq;
    cbn [client time inflight timers submitted dispatched settled with_queue
         processing requestQueue requestsPerMinute map fst snd head rev spaced];
    rewrite Hin, Htm; cbn [length app Nat.add Nat.eqb negb].
  - split; [lia |]. split; [done |]. split; [done |].
    split; [by rewrite app_nil_r |]. split; [done |].
    split; [exact Hpast |]. split; [intros ? ? _ [] | intros _; exact Hidle].
  - split; [lia |]. split; [done |].
    split; [by rewrite Hfifo, <- app_assoc |].
    split; [by rewrite Hset |].
    split.
    { split; [| exact Hsp].
      destruct (map fst (dispatched l)) as [| t1 ts] eqn:Hd; [done |].
      by apply Hidle. }
    split; [intros t [= <-]; apply Qle_refl |].
    split; [intros ? ? _ [] | done].
Qed.

Lemma Inv_create config t : Inv (create config t).
Proof.
  unfold create, startRequestProcessor.
  cbn [client processing requestQueue length Nat.eqb negb andb].
  unfold Inv, lastDispatch. cbn. repeat split; try done. lia.
Qed.

Lemma Inv_step l ev : Inv l -> Inv (step l ev).
Proof.
  intros HI.
  destruct HI as (Hone & Hproc & Hfifo & Hset & Hsp & Hpast & Hdue & Hidle).
  destruct ev as [r | i ok | i | d]; cbn [step].
  - (* a new request *)
    unfold request. cbn [processing client with_queue].
    destruct (processing (client l)) eqn:Hp; cbn [negb].
    + unfold Inv, lastDispatch, delay in *.
      cbn [client time inflight timers submitted dispatched settled with_queue
           processing requestQueue requestsPerMinute].
      split; [done |]. split; [done |].
      split; [by rewrite Hfifo, app_assoc |].
      split; [done |]. split; [done |]. split; [done |]. split; [done |].
      done.
    + assert (Hnone : inflight l = [] /\ timers l = []).
      { symmetry in Hproc. apply negb_false_iff, Nat.eqb_eq in Hproc.
        destruct (inflight l), (timers l); cbn in Hproc; try lia. done. }
      destruct Hnone as (Hin & Htm).
      apply Inv_processNextRequest;
        cbn [client time inflight timers submitted dispatched settled with_queue
             processing requestQueue requestsPerMinute]; try done.
      * by rewrite Hfifo, app_assoc.
      * rewrite Hin, app_nil_r in Hset. done.
      * by apply Hidle.
  - (* the pending call settles *)
    unfold answer. destruct (inflight l !! i) as [r |] eqn:Hi;
      [| by repeat split].
    assert (Hshape : inflight l = [r] /\ timers l = [] /\ i = 0%nat).
    { destruct (inflight l) as [| r0 [| r1 rs]] eqn:Hin; cbn in Hone.
      - done.
      - destruct i; cbn in Hi; [| done]. injection Hi as ->.
        destruct (timers l); cbn in Hone; [done | lia].
      - lia. }
    destruct Hshape as (Hin & Htm & ->).
    unfold Inv, lastDispatch, delay in *.
    cbn [client time inflight timers submitted dispatched settled].
    rewrite Hin, Htm in *. cbn [delete list_delete length app Nat.add] in *.
    split; [lia |]. split; [done |]. split; [done |].
    split; [by rewrite map_app, app_nil_r |].
    split; [done |]. split; [done |].
    split.
    { intros t due Ht [<- | []]. specialize (Hpast t Ht).
      apply Qplus_le_l. done. }
    intros Hfalse. rewrite Hfalse in Hproc. done.
  - (* the timer fires *)
    unfold fire. destruct (timers l !! i) as [due |] eqn:Hi;
      [| by repeat split].
    destruct (Qle_bool due (time l)) eqn:Hle; [| by repeat split].
    apply Qle_bool_iff in Hle.
    assert (Hshape : inflight l = [] /\ timers l = [due] /\ i = 0%nat).
    { destruct (timers l) as [| d0 [| d1 ds]] eqn:Htm; cbn in Hone.
      - done.
      - destruct i; cbn in Hi; [| done]. injection Hi as ->.
        destruct (inflight l); cbn in Hone; [done | lia].
      - lia. }
    destruct Hshape as (Hin & Htm & ->).
    apply Inv_processNextRequest;
      cbn [client time inflight timers submitted dispatched settled]; try done.
    + by rewrite Htm.
    + rewrite Hin, app_nil_r in Hset. done.
    + intros t Ht. eapply Qle_trans; [| exact Hle].
      apply (Hdue t due Ht). rewrite Htm. by left.
  - (* time passes *)
    unfold wait. destruct (Qle_bool 0 d) eqn:Hd; [| by repeat split].
    apply Qle_bool_iff in Hd.
    unfold Inv, lastDispatch, delay in *.
    cbn [client time inflight timers submitted dispatched settled].
    split; [done |]. split; [done |]. split; [done |]. split; [done |].
    split; [done |].
    split; [intros t Ht; specialize (Hpast t Ht); lra |].
    split; [done |].
    intros Hfalse t Ht. specialize (Hidle Hfalse t Ht). lra.
Qed.

Lemma Inv_run evs : forall l, Inv l -> Inv (run evs l).
Proof.
  induction evs as [| ev evs IH]; intros l HI; [done |].
  cbn [run foldl]. apply IH, Inv_step, HI.
Qed.

Lemma delay_run evs : forall l, delay (client (run evs l)) = delay (client l).
Proof.
  induction evs as [| ev evs IH]; intros l; [done |].
  cbn [run foldl]. fold (run evs (step l ev)). by rewrite IH, delay_step.
Qed.

Lemma delay_create config t :
  (0 < cfg_requestsPerMinute config)%Z ->
  delay (client (create config t))
    = inject_Z (60 * 1000) / inject_Z (cfg_requestsPerMinute config).
Proof.
  intros Hpos. unfold create, startRequestProcessor, delay. cbn.
  destruct (Z.eqb_spec (cfg_requestsPerMinute config) 0); [lia | done].
Qed.

(** C7. From a fresh client with a positive requests-per-minute budget,
    after any sequence of events: at most one request is with axios; the
    requests handed to axios are, in order, the first ones submitted, the
    others waiting in submission order; they settle in that order;
    consecutive dispatches are at least [60000 / requestsPerMinute] ms
    apart.  When the pending request settles, resolved or rejected alike,
    the timer is armed for exactly that delay: the head of the queue is not
    dispatched while less time has passed, and is dispatched when the
    timer fires at the end of it. *)
Theorem queue_is_fifo_and_spaced config t0 evs :
  (0 < cfg_requestsPerMinute config)%Z ->
  let l := run evs (create config t0) in
  let d := inject_Z (60 * 1000) / inject_Z (cfg_requestsPerMinute config) in
  delay (client l) = d /\
  (length (inflight l) <= 1)%nat /\
  submitted l = (rev (map snd (dispatched l)) ++ requestQueue (client l))%list /\
  (map fst (settled l) ++ inflight l)%list = rev (map snd (dispatched l)) /\
  spaced d (map fst (dispatched l)) /\
  (forall r q rest ok,
     inflight l = [r] -> requestQueue (client l) = q :: rest ->
     timers (answer 0 ok l) = [time l + d] /\
     settled (answer 0 ok l) = (settled l ++ [(r, ok)])%list /\
     (forall w, 0 <= w -> w < d ->
        dispatched (run [Answer 0 ok; Wait w; Fire 0] l) = dispatched l) /\
     dispatched (run [Answer 0 ok; Wait d; Fire 0] l)
       = (time l + d, q) :: dispatched l /\
     inflight (run [Answer 0 ok; Wait d; Fire 0] l) = [q] /\
     requestQueue (client (run [Answer 0 ok; Wait d; Fire 0] l)) = rest).
Proof.
  intros Hpos l d.
  assert (Hd : delay (client l) = d).
  { subst l d. rewrite delay_run. by apply delay_create. }
  assert (Hd0 : 0 <= d).
  { subst d. apply Qle_shift_div_l.
    - change 0 with (inject_Z 0). rewrite <- Zlt_Qlt. done.
    - rewrite Qmult_0_l. change 0 with (inject_Z 0). rewrite <- Zle_Qle. done. }
  pose proof (Inv_run evs _ (Inv_create config t0)) as HI. fold l in HI.
  destruct HI as (Hone & Hproc & Hfifo & Hset & Hsp & Hpast & Hdue & Hidle).
  split; [exact Hd |]. split; [lia |]. split; [exact Hfifo |].
  split; [exact Hset |]. split; [by rewrite <- Hd |].
  intros r q rest ok Hin Hq.
  assert (Htm : timers l = []).
  { rewrite Hin in Hone. destruct (timers l); [done | cbn in Hone; lia]. }
  assert (Hans : answer 0 ok l =
    {| client := client l; time := time l; inflight := [];
       timers := [time l + d]; submitted := submitted l;
       dispatched := dispatched l; settled := (settled l ++ [(r, ok)])%list |}).
  { unfold answer. rewrite Hin, Htm, Hd. done. }
  split; [by rewrite Hans |]. split; [by rewrite Hans |].
  split; [| cbn [run foldl step]; rewrite Hans; unfold wait; 
            destruct (Qle_bool 0 d) eqn:Hw;
            [| apply not_true_iff_false in Hw; rewrite Qle_bool_iff in Hw; done]].
  - intros w Hw0 Hwd. cbn [run foldl step]. rewrite Hans. unfold wait.
    destruct (Qle_bool 0 w) eqn:Hw;
      [| apply not_true_iff_false in Hw; rewrite Qle_bool_iff in Hw; done].
    unfold fire. cbn [timers time lookup list_lookup].
    destruct (Qle_bool (time l + d) (time l + w)) eqn:Hle; [| done].
    apply Qle_bool_iff in Hle. lra.
  - unfold fire. cbn [timers time lookup list_lookup].
    destruct (Qle_bool (time l + d) (time l + d)) eqn:Hle;
      [| apply not_true_iff_false in Hle; rewrite Qle_bool_iff in Hle;
         destruct Hle; apply Qle_refl].
    unfold processNextRequest.
    cbn [client time inflight timers submitted dispatched settled
         delete list_delete].
    rewrite Hq. cbn. done.
Qed.

End PicqerClientProps.

(** * Worked runs *)

(** C1 on the mixed run: products succeed with count 10, picklists fail
    with "timeout", warehouses succeed with count 3, and the combined
    flag is true. *)
Lemma syncAll_success_is_any_witness :
  syncInProgress mixedRun = false /\
  exists t w',
    syncAll mixedRun =
      (Ret (Combined t (SyncOk 10) (SyncErr "timeout") (SyncOk 3) true), w').
Proof.
  split; [reflexivity |].
  destruct (syncAll_success_is_any mixedRun eq_refl)
    as (t & p & k & h & w1 & w2 & w3 & w' & Hp & Hk & Hh & Hall & _).
  vm_compute in Hp. injection Hp as <- <-.
  vm_compute in Hk. injection Hk as <- <-.
  vm_compute in Hh. injection Hh as <- <-.
  exists t, w'. exact Hall.
Defined.

(** C3 on a world in which a full sync is under way. *)
Lemma syncAll_rejected_when_running_witness :
  syncInProgress busyWorld = true /\
  fst (syncAll busyWorld) = Ret (Rejected "Sync already in progress") /\
  dbPool (snd (syncAll busyWorld)) = dbPool busyWorld /\
  requested (snd (syncAll busyWorld)) = [].
Proof.
  split; [reflexivity |].
  destruct (syncAll_rejected_when_running busyWorld eq_refl)
    as (w' & Hall & _ & Hdb & Hreq & _).
  rewrite Hall. cbn [fst snd]. split; [reflexivity |].
  split; [exact Hdb | exact Hreq].
Defined.

(** C5 on four fetched products of which one repeats an identifier and
    one meets a lost connection: two rows, count 2, two logged errors. *)
Lemma sync_success_counts_witness :
  syncEntity Products lossyFetch
    = (Ret (SyncOk 2), snd (syncEntity Products lossyFetch)) /\
  Z.of_nat (length (table Products (dbPool (snd (syncEntity Products lossyFetch)))))
    = 2 /\
  sync_status (dbPool (snd (syncEntity Products lossyFetch))) !! "products"
    = Some {| last_sync := clock (snd (syncEntity Products lossyFetch));
              record_count := 2; status := "success" |}.
Proof.
  assert (H : syncEntity Products lossyFetch
              = (Ret (SyncOk 2), snd (syncEntity Products lossyFetch)))
    by (vm_compute; reflexivity).
  split; [exact H |].
  destruct (sync_success_counts Products lossyFetch 2 _ H)
    as ((records & rest & _ & Hlen & _ & Hst) & _).
  split; [exact Hlen | exact Hst].
Defined.

(** C2 as stated fails when the error upsert is itself rejected: the
    products fetch times out, the database call of the [catch] block is
    refused, and afterwards [sync_status] has no products row with the
    status the claim promises. *)
Lemma error_status_not_always_stored :
  fetchOrDeleteFailure allDown = Some "timeout" /\
  fst (syncProducts allDown) = Ret (SyncErr "timeout") /\
  ~ (exists row,
       sync_status (dbPool (snd (syncProducts allDown))) !! "products" = Some row /\
       status row = "error: " +:+ String.substring 0 255 "timeout").
Proof.
  split; [reflexivity |]. split; [vm_compute; reflexivity |].
  intros (row & Hrow & _).
  assert (Hnone : sync_status (dbPool (snd (syncProducts allDown))) !! "products"
                  = None) by (vm_compute; reflexivity).
  rewrite Hnone in Hrow. discriminate Hrow.
Qed.

(** C2 as amended, on a products fetch that times out while the
    database is reachable. *)
Lemma sync_failure_reports_error_witness :
  fetchOrDeleteFailure fetchDown = Some "timeout" /\
  statusUpsertFailure fetchDown "timeout" = None /\
  exists w' row,
    syncEntity Products fetchDown = (Ret (SyncErr "timeout"), w') /\
    sync_status (dbPool w') !! "products" = Some row /\
    status row = "error: timeout".
Proof.
  split; [reflexivity |]. split; [reflexivity |].
  destruct (sync_failure_reports_error Products fetchDown "timeout" eq_refl)
    as (w' & Hsync & _ & Hrow).
  destruct (Hrow eq_refl) as (row & Hlook & Hstatus).
  exists w', row. split; [exact Hsync |]. split; [exact Hlook | exact Hstatus].
Defined.

(** C4 as stated fails in its second half when the error upsert is
    rejected: the picklists fetch fails, the rows stay, and the status
    stays ["success"]. *)
Lemma fetch_failure_status_not_always_error :
  fetchFailure picklistsDown = Some "Request failed with status code 500" /\
  table Picklists (dbPool (snd (syncPicklists picklistsDown)))
    = table Picklists (dbPool picklistsDown) /\
  ~ (exists row,
       sync_status (dbPool (snd (syncPicklists picklistsDown))) !! "picklists"
         = Some row /\
       String.prefix "error: " (status row) = true).
Proof.
  split; [reflexivity |]. split; [vm_compute; reflexivity |].
  intros (row & Hrow & Hprefix).
  assert (Hold : sync_status (dbPool (snd (syncPicklists picklistsDown))) !! "picklists"
                 = Some {| last_sync := 5; record_count := 2; status := "success" |})
    by (vm_compute; reflexivity).
  rewrite Hold in Hrow. injection Hrow as <-.
  cbn in Hprefix. discriminate Hprefix.
Qed.

(** C4 as amended, on the same failing fetch with the database
    reachable. *)
Lemma fetch_failure_keeps_rows_witness :
  fetchFailure picklistsFetchDown = Some "Request failed with status code 500" /\
  statusUpsertFailure picklistsFetchDown "Request failed with status code 500"
    = None /\
  exists w' row,
    syncEntity Picklists picklistsFetchDown
      = (Ret (SyncErr "Request failed with status code 500"), w') /\
    table Picklists (dbPool w') = picklists syncedPicklists /\
    sync_status (dbPool w') !! "picklists" = Some row /\
    String.prefix "error: " (status row) = true.
Proof.
  split; [reflexivity |]. split; [reflexivity |].
  destruct (fetch_failure_keeps_rows Picklists picklistsFetchDown
              "Request failed with status code 500" eq_refl)
    as (w' & Hsync & Htab & Hrow).
  destruct (Hrow eq_refl) as (row & Hlook & Hprefix).
  exists w', row. split; [exact Hsync |].
  split; [exact (Htab Picklists) |]. split; [exact Hlook | exact Hprefix].
Defined.

(** C6 on a rejected DELETE followed by a rejected error upsert: the
    result carries the message of the DELETE. *)
Lemma secondary_failure_is_swallowed_witness :
  fetchOrDeleteFailure deleteDown = Some "Connection lost" /\
  statusUpsertFailure deleteDown "Connection lost" = Some "Connection is closed." /\
  exists w',
    syncEntity Warehouses deleteDown = (Ret (SyncErr "Connection lost"), w') /\
    last (console w')
      = Some (Err, "Error updating sync status: Connection is closed.").
Proof.
  split; [reflexivity |]. split; [reflexivity |].
  destruct (secondary_failure_is_swallowed Warehouses deleteDown
              "Connection lost" "Connection is closed." eq_refl eq_refl)
    as (w' & Hsync & Hlast & _).
  exists w'. split; [exact Hsync | exact Hlast].
Defined.

(** C8 on the path parameter "foobar". *)
Lemma unknown_entity_is_refused_witness :
  "foobar" <> "products" /\ "foobar" <> "picklists" /\ "foobar" <> "warehouses" /\
  exists w1,
    postSyncEntity "foobar" mixedRun =
      ({| code := 400; body := Refused "Unknown entity type: foobar" |}, None, w1) /\
    requested w1 = [].
Proof.
  assert (H1 : "foobar" <> "products") by discriminate.
  assert (H2 : "foobar" <> "picklists") by discriminate.
  assert (H3 : "foobar" <> "warehouses") by discriminate.
  split; [exact H1 |]. split; [exact H2 |]. split; [exact H3 |].
  destruct (unknown_entity_is_refused "foobar" mixedRun H1 H2 H3)
    as (w1 & Hresp & _ & _ & Hreq & _).
  exists w1. split; [exact Hresp | exact Hreq].
Defined.

(** C10 as stated fails when the error upsert is itself rejected: a
    products sync stores two rows, the next one fails at the fetch and
    its error upsert is refused; the reporter then shows the count 2 next
    to the status ["success"], not next to an error status. *)
Lemma reporter_status_not_always_error :
  syncEntity Products firstRun = (Ret (SyncOk 2), secondRun) /\
  dbPool secondRunDbDown = dbPool secondRun /\
  fst (syncEntity Products secondRunDbDown) = Ret (SyncErr "timeout") /\
  ~ (exists st flag entry,
       body (fst (getStats (snd (syncEntity Products secondRunDbDown))))
         = Stats st flag /\
       st !! "products" = Some entry /\
       String.prefix "error: " (statStatus entry) = true).
Proof.
  split; [vm_compute; reflexivity |]. split; [reflexivity |].
  split; [vm_compute; reflexivity |].
  intros (st & flag & entry & Hbody & Hlook & Hprefix).
  assert (Hshown :
    exists st0,
      body (fst (getStats (snd (syncEntity Products secondRunDbDown))))
        = Stats st0 false /\
      st0 !! "products" =
        Some {| lastSyncDate := Some 5; totalCount := 2; statStatus := "success" |}).
  { eexists. split; [vm_compute; reflexivity |]. vm_compute. reflexivity. }
  destruct Hshown as (st0 & Hbody0 & Hlook0).
  rewrite Hbody0 in Hbody. injection Hbody as <- _.
  rewrite Hlook0 in Hlook. injection Hlook as <-.
  cbn in Hprefix. discriminate Hprefix.
Qed.

(** C10 as amended, on a products sync that stored two rows, followed by
    one whose fetch times out while the database is reachable: the
    reporter shows the count 2 next to the error. *)
Lemma error_upsert_keeps_record_count_witness :
  syncEntity Products secondRun
    = (Ret (SyncErr "timeout"), snd (syncEntity Products secondRun)) /\
  exists st v' entry,
    getStats (snd (syncEntity Products secondRun))
      = ({| code := 200; body := Stats st false |}, v') /\
    st !! "products" = Some entry /\
    totalCount entry = 2 /\
    statStatus entry = "error: timeout".
Proof.
  assert (H : syncEntity Products secondRun
              = (Ret (SyncErr "timeout"), snd (syncEntity Products secondRun)))
    by (vm_compute; reflexivity).
  split; [exact H |].
  destruct (error_upsert_keeps_record_count Products secondRun "timeout" _ H)
    as (w1 & _ & Hearly & _ & _ & Hstats).
  assert (Hfirst : syncEntity Products firstRun = (Ret (SyncOk 2), secondRun))
    by (vm_compute; reflexivity).
  destruct (Hstats firstRun 2 secondRun Hfirst eq_refl eq_refl)
    as (st & v' & entry & Hget & Hlook & Hcount & Hstatus).
  exists st, v', entry. split; [exact Hget |]. split; [exact Hlook |].
  split; [exact Hcount |]. apply Hstatus.
  rewrite (Hearly eq_refl). reflexivity.
Defined.

(** The status column is narrower than the status the [catch] block may
    hand it: a fetch error of 48 characters is reported to the caller,
    the status built from it is 55 characters long, and the products row
    does not hold it afterwards. *)
Example long_message_is_not_stored :
  fst (syncProducts longMessage)
    = Ret (SyncErr "getaddrinfo ENOTFOUND api.picqer.example.invalid") /\
  String.length
    ("error: " +:+
       String.substring 0 255 "getaddrinfo ENOTFOUND api.picqer.example.invalid")
    = 55%nat /\
  status <$> sync_status (dbPool (snd (syncProducts longMessage))) !! "products"
    <> Some ("error: " +:+
               String.substring 0 255
                 "getaddrinfo ENOTFOUND api.picqer.example.invalid").
Proof.
  split; [vm_compute; reflexivity |]. split; [vm_compute; reflexivity |].
  assert (H : status <$> sync_status (dbPool (snd (syncProducts longMessage)))
                !! "products" = None) by (vm_compute; reflexivity).
  rewrite H. discriminate.
Qed.

(** On the busy world the products sync is started and runs although a
    full sync is under way, and leaves the flag set. *)
Example entity_sync_runs_while_busy :
  snd (fst (postSyncEntity "products" busyWorld)) = Some (RunEntity Products) /\
  fst (syncProducts busyWorld) = Ret (SyncOk 10) /\
  syncInProgress (snd (syncProducts busyWorld)) = true.
Proof. repeat split; vm_compute; reflexivity. Qed.

(** C7 on a budget of 30 requests per minute: the second request goes
    out no sooner than 2000 ms after the first, although the first was
    rejected. *)
Lemma queue_is_fifo_and_spaced_witness :
  (0 < PicqerClient.cfg_requestsPerMinute cfg30)%Z /\
  PicqerClient.spaced (inject_Z (60 * 1000) / inject_Z 30)
    (map fst (PicqerClient.dispatched
                (PicqerClient.run queueDemo (PicqerClient.create cfg30 0)))) /\
  map fst (PicqerClient.dispatched
             (PicqerClient.run queueDemo (PicqerClient.create cfg30 0)))
    = [2150 # 1; 0 # 1]%Q.
Proof.
  split; [reflexivity |].
  pose proof (PicqerClientProps.queue_is_fifo_and_spaced cfg30 0 queueDemo eq_refl)
    as H.
  cbv zeta in H. destruct H as (_ & _ & _ & _ & Hsp & _).
  split; [exact Hsp | vm_compute; reflexivity].
Defined.

(** * Further properties *)

(** ** The INSERT loop, row by row *)

Lemma existsb_ids rows z :
  existsb (fun x => row_id x =? z) rows = existsb (fun x => x =? z) (ids rows).
Proof. unfold ids. induction rows as [| x rows IH]; cbn; [done | by rewrite IH]. Qed.

Lemma existsb_ids_false rows z :
  existsb (fun x => x =? z) (ids rows) = false -> ~ In z (ids rows).
Proof.
  intros Hex Hin.
  assert (Htrue : existsb (fun x => x =? z) (ids rows) = true).
  { apply existsb_exists. exists z. split; [done | apply Z.eqb_refl]. }
  congruence.
Qed.

(** One pass of the loop, as an equation. *)
Lemma insertOne_eq e r n w :
  insertOne e r n w =
    let w1 := with_dbFaults (tail (dbFaults w)) (tick w) in
    let skip m :=
      (Ret n,
       with_console
         (console w1 ++
            [(Err, "Error inserting " +:+ entitySingular e +:+ " "
                     +:+ pretty (remote_id r) +:+ ": " +:+ m)]) w1) in
    match nextFault (dbFaults w) with
    | Some m => skip m
    | None =>
        if existsb (fun x => x =? remote_id r) (ids (table e (dbPool w)))
        then skip "Violation of PRIMARY KEY constraint"
        else (Ret (n + 1),
              with_db (set_table e
                         (table e (dbPool w) ++ [rowOf e r (clock w + 1)])
                         (dbPool w)) w1)
    end.
Proof.
  unfold insertOne, try_catch, bind, query, dbCall, log, ret, insertRow.
  cbv zeta. wsimpl.
  destruct (nextFault (dbFaults w)); [done |].
  rewrite existsb_ids. by destruct (existsb _ _).
Qed.

Lemma fromRecords_cons e r records row :
  fromRecords e records row -> fromRecords e (r :: records) row.
Proof. intros (x & Hin & H). exists x. split; [by right | done]. Qed.

(** The loop only appends: what was stored stays, every new row was
    built from a fetched record, and the keys stay distinct. *)
Lemma insertLoop_rows e records :
  forall n w, exists k w' added,
    insertLoop e records n w = (Ret k, w') /\
    table e (dbPool w') = (table e (dbPool w) ++ added)%list /\
    Forall (fromRecords e records) added /\
    (NoDup (ids (table e (dbPool w))) -> NoDup (ids (table e (dbPool w')))).
Proof.
  induction records as [| r rest IH]; intros n w.
  - exists n, w, []. cbn [insertLoop ret]. rewrite app_nil_r. by repeat split.
  - cbn [insertLoop]. unfold bind at 1. rewrite insertOne_eq. cbv zeta.
    assert (Hskip : forall w1,
      table e (dbPool w1) = table e (dbPool w) ->
      exists k w' added,
        insertLoop e rest n w1 = (Ret k, w') /\
        table e (dbPool w') = (table e (dbPool w) ++ added)%list /\
        Forall (fromRecords e (r :: rest)) added /\
        (NoDup (ids (table e (dbPool w))) -> NoDup (ids (table e (dbPool w'))))).
    { intros w1 Htab.
      destruct (IH n w1) as (k & w' & added & Heq & Happ & Hfrom & Hnd).
      exists k, w', added. rewrite Htab in *. split; [done |]. split; [done |].
      split; [| done].
      eapply Forall_impl; [exact Hfrom |]. intros row. apply fromRecords_cons. }
    destruct (nextFault (dbFaults w)) as [m |]; [by apply Hskip |].
    destruct (existsb _ _) eqn:Hex; [by apply Hskip |].
    set (w1 := with_db _ _).
    assert (Htab : table e (dbPool w1)
                   = (table e (dbPool w) ++ [rowOf e r (clock w + 1)])%list).
    { subst w1. wsimpl. rewrite table_set_table. by case_decide. }
    destruct (IH (n + 1)%Z w1) as (k & w' & added & Heq & Happ & Hfrom & Hnd).
    exists k, w', (rowOf e r (clock w + 1) :: added).
    split; [done |].
    split; [by rewrite Happ, Htab, <- app_assoc |].
    split.
    + constructor.
      * exists r. split; [by left | done].
      * eapply Forall_impl; [exact Hfrom |]. intros row. apply fromRecords_cons.
    + intros Hnodup. apply Hnd. rewrite Htab. unfold ids. rewrite map_app.
      cbn [map rowOf row_id].
      apply NoDup_app. split; [exact Hnodup |].
      split; [| apply NoDup_singleton].
      intros z Hz Hz'. apply list_elem_of_In in Hz, Hz'.
      destruct Hz' as [<- | []].
      by apply existsb_ids_false in Hex.
Qed.

(** ** The [try] block, as an equation *)

Lemma syncBody_eq e w :
  syncBody e w =
    match remote w with
    | [] => (Throw "Network Error", rejectedWorld e "Network Error" w)
    | FetchFailed m :: _ => (Throw m, rejectedWorld e m w)
    | Fetched records :: _ =>
        match nextFault (dbFaults w) with
        | Some m =>
            (Throw m,
             with_dbFaults (tail (dbFaults w)) (tick (fetchedWorld e records w)))
        | None =>
            match insertLoop e records 0 (deletedWorld e records w) with
            | (Ret k, w3) =>
                let w4 := with_dbFaults (tail (dbFaults w3)) (tick w3) in
                match nextFault (dbFaults w3) with
                | Some m => (Throw m, w4)
                | None =>
                    (Ret (SyncOk k),
                     with_console
                       (console w4 ++
                          [(Info, "Synced " +:+ pretty k +:+ " " +:+ entityName e
                                    +:+ " successfully")])
                       (with_db
                          (set_sync_status
                             (<[entityName e :=
                                  {| last_sync := clock w3 + 1; record_count := k;
                                     status := "success" |}]>
                                (sync_status (dbPool w3))) (dbPool w3)) w4))
                end
            | (Throw m, w3) => (Throw m, w3)
            end
        end
    end.
Proof.
  unfold syncBody. rewrite getEntity_request.
  unfold rejectedWorld, deletedWorld, fetchedWorld.
  unfold bind at 1. unfold log at 1. unfold bind at 1. unfold request.
  wsimpl.
  destruct (remote w) as [| [records | fm] rest]; [done | | done].
  unfold bind at 1. unfold log at 1. unfold bind at 1.
  unfold query at 1. unfold dbCall. wsimpl.
  destruct (nextFault (dbFaults w)) as [dm |]; [done |].
  cbn [deleteAll]. unfold bind at 1. unfold tick. wsimpl.
  destruct (insertLoop e records 0 _) as [[k | m] w3]; [| done].
  unfold bind at 1. unfold query, dbCall. cbv zeta.
  destruct (nextFault (dbFaults w3)) as [um |]; [done |].
  wsimpl. rewrite upsertSuccess_commits.
  unfold bind, log, ret. wsimpl. done.
Qed.

Lemma deletedWorld_table e records w : table e (dbPool (deletedWorld e records w)) = [].
Proof. unfold deletedWorld. wsimpl. rewrite table_set_table. by case_decide. Qed.

(** ** What every entity sync does, whatever its result *)

Lemma syncHandler_frame e m w :
  exists w',
    syncHandler e m w = (Ret (SyncErr m), w') /\
    (forall e', table e' (dbPool w') = table e' (dbPool w)) /\
    (forall k, k <> entityName e ->
               sync_status (dbPool w') !! k = sync_status (dbPool w) !! k) /\
    db_only w w'.
Proof.
  destruct (syncHandler_spec e m w) as (w' & Hh & Htab & Hdb & Hup).
  exists w'. split; [done |]. split; [done |]. split; [| done].
  intros k Hk.
  destruct (upsertFailure (dbFaults w) m); destruct Hup as (Hst & _);
    rewrite Hst; [done |]. by rewrite lookup_insert_ne.
Qed.

(** The try block asks the remote service once, for its own endpoint,
    and uses up one scripted answer. *)
Lemma syncBody_requests e w r w1 :
  syncBody e w = (r, w1) ->
  requested w1 = (requested w ++ [entityName e])%list /\
  remote w1 = tail (remote w).
Proof.
  rewrite syncBody_eq.
  destruct (remote w) as [| [records | fm] rest] eqn:Hrem;
    [intros [= <- <-]; unfold rejectedWorld; wsimpl; by rewrite Hrem | |
     intros [= <- <-]; unfold rejectedWorld; wsimpl; by rewrite Hrem].
  destruct (nextFault (dbFaults w)) as [dm |];
    [intros [= <- <-]; unfold fetchedWorld; wsimpl; by rewrite Hrem |].
  destruct (insertLoop_spec e records 0 (deletedWorld e records w))
    as (k & w3 & Heq & _ & _ & _ & _ & _ & _ & _ & (_ & _ & Hreq & Hremote)).
  rewrite Heq. cbv zeta.
  unfold deletedWorld, fetchedWorld in Hreq, Hremote. wsimpl.
  destruct (nextFault (dbFaults w3));
    intros [= <- <-]; wsimpl; rewrite Hreq, Hremote, Hrem; done.
Qed.

Lemma syncEntity_requests e w :
  exists res w',
    syncEntity e w = (Ret res, w') /\
    requested w' = (requested w ++ [entityName e])%list /\
    remote w' = tail (remote w).
Proof.
  unfold syncEntity, try_catch.
  destruct (syncBody e w) as [[res | m] w1] eqn:Hbody;
    apply syncBody_requests in Hbody as (Hreq & Hrem).
  - by exists res, w1.
  - destruct (syncHandler_frame e m w1) as (w' & Hh & _ & _ & (_ & _ & Hr & Hm)).
    exists (SyncErr m), w'. rewrite Hh, Hr, Hm. done.
Qed.

(** X1. Every entity sync, whatever its result, asks the remote service
    exactly once, for its own endpoint, and consumes exactly one answer:
    a failed fetch is never retried. *)
Theorem entity_sync_asks_once e w :
  exists res w',
    syncEntity e w = (Ret res, w') /\
    requested w' = (requested w ++ [entityName e])%list /\
    remote w' = tail (remote w) /\
    length (requested w') = S (length (requested w)).
Proof.
  destruct (syncEntity_requests e w) as (res & w' & Hsync & Hreq & Hrem).
  exists res, w'. split; [done |]. split; [done |]. split; [done |].
  rewrite Hreq, length_app. cbn. lia.
Qed.

Lemma syncEntity_frame e w :
  (forall e', e' <> e ->
     table e' (dbPool (snd (syncEntity e w))) = table e' (dbPool w)) /\
  (forall k, k <> entityName e ->
     sync_status (dbPool (snd (syncEntity e w))) !! k = sync_status (dbPool w) !! k).
Proof.
  unfold syncEntity, try_catch.
  destruct (syncBody e w) as [[res | m] w1] eqn:Hbody; cbn [snd].
  - destruct (syncBody_inv _ _ _ _ Hbody)
      as (_ & Hoth & (records & rest & n & _ & _ & _ & _ & Hst)).
    split; [exact Hoth |]. intros k Hk. rewrite Hst. by rewrite lookup_insert_ne.
  - destruct (syncBody_inv _ _ _ _ Hbody) as (_ & Hoth & Hst).
    destruct (syncHandler_frame e m w1) as (w' & Hh & Htab & Hstat & _).
    rewrite Hh. cbn [snd]. split.
    + intros e' Hne. by rewrite Htab, Hoth.
    + intros k Hk. by rewrite Hstat, Hst.
Qed.

(** X2. An entity sync, whatever its result, leaves the tables of the
    other entities and the [sync_status] rows of the other entities
    exactly as they were. *)
Theorem entity_sync_leaves_others e w :
  (forall e', e' <> e ->
     table e' (dbPool (snd (syncEntity e w))) = table e' (dbPool w)) /\
  (forall e', e' <> e ->
     sync_status (dbPool (snd (syncEntity e w))) !! entityName e'
       = sync_status (dbPool w) !! entityName e') /\
  (forall k, k <> entityName e ->
     sync_status (dbPool (snd (syncEntity e w))) !! k = sync_status (dbPool w) !! k).
Proof.
  destruct (syncEntity_frame e w) as (Htab & Hst).
  split; [exact Htab |]. split; [| exact Hst].
  intros e' Hne. apply Hst. by destruct e, e'.
Qed.

(** ** What the table holds afterwards *)

(** Either the try block failed before the DELETE and the table is as it
    was, or the DELETE ran and the table holds rows of this fetch only. *)
Lemma syncBody_rows e w r w1 :
  syncBody e w = (r, w1) ->
  (fetchOrDeleteFailure w <> None /\ dbPool w1 = dbPool w) \/
  (exists records rest,
     remote w = Fetched records :: rest /\
     nextFault (dbFaults w) = None /\
     Forall (fromRecords e records) (table e (dbPool w1)) /\
     NoDup (ids (table e (dbPool w1)))).
Proof.
  rewrite syncBody_eq.
  unfold fetchOrDeleteFailure, fetchFailure, deleteFailure.
  destruct (remote w) as [| [records | fm] rest] eqn:Hrem;
    [intros [= <- <-]; by left | | intros [= <- <-]; by left].
  destruct (nextFault (dbFaults w)) as [dm |] eqn:Hf;
    [intros [= <- <-]; by left |].
  intros Hrun. right. exists records, rest. split; [done |]. split; [done |].
  destruct (insertLoop_rows e records 0 (deletedWorld e records w))
    as (k & w3 & added & Heq & Happ & Hfrom & Hnd).
  rewrite Heq in Hrun. cbv zeta in Hrun.
  rewrite deletedWorld_table in Happ, Hnd. cbn [app] in Happ.
  specialize (Hnd (NoDup_nil_2 : NoDup (ids []))).
  rewrite Happ in Hnd.
  destruct (nextFault (dbFaults w3)); injection Hrun as <- <-; wsimpl;
    rewrite ?table_set_sync_status, Happ; by split.
Qed.

Lemma syncEntity_rows e w :
  (fetchOrDeleteFailure w <> None /\
   forall e', table e' (dbPool (snd (syncEntity e w))) = table e' (dbPool w)) \/
  (exists records rest,
     remote w = Fetched records :: rest /\
     nextFault (dbFaults w) = None /\
     Forall (fromRecords e records) (table e (dbPool (snd (syncEntity e w)))) /\
     NoDup (ids (table e (dbPool (snd (syncEntity e w)))))).
Proof.
  unfold syncEntity, try_catch.
  destruct (syncBody e w) as [[res | m] w1] eqn:Hbody; cbn [snd];
    destruct (syncBody_rows _ _ _ _ Hbody)
      as [(Hfail & Hdb) | (records & rest & Hrem & Hf & Hfrom & Hnd)].
  - left. split; [done |]. intros e'. by rewrite Hdb.
  - right. by exists records, rest.
  - destruct (syncHandler_frame e m w1) as (w' & Hh & Htab & _).
    rewrite Hh. cbn [snd]. left. split; [done |]. intros e'. by rewrite Htab, Hdb.
  - destruct (syncHandler_frame e m w1) as (w' & Hh & Htab & _).
    rewrite Hh. cbn [snd]. right. exists records, rest. rewrite Htab. done.
Qed.

(** X3. Once the fetch has returned a collection and the DELETE has
    run, the entity's table holds only rows built from that collection,
    with pairwise distinct keys, whatever the sync then returns: the rows
    stored before are gone even if the sync ends by reporting a failure. *)
Theorem sync_replaces_all_rows e w records rest :
  remote w = Fetched records :: rest ->
  nextFault (dbFaults w) = None ->
  Forall (fromRecords e records) (table e (dbPool (snd (syncEntity e w)))) /\
  NoDup (ids (table e (dbPool (snd (syncEntity e w))))) /\
  (length (table e (dbPool (snd (syncEntity e w)))) <= length records)%nat.
Proof.
  intros Hrem Hf.
  destruct (syncEntity_rows e w)
    as [(Hfail & _) | (records' & rest' & Hrem' & _ & Hfrom & Hnd)].
  { exfalso. apply Hfail.
    unfold fetchOrDeleteFailure, fetchFailure, deleteFailure. by rewrite Hrem, Hf. }
  rewrite Hrem in Hrem'. injection Hrem' as <- <-.
  split; [done |]. split; [done |].
  (* distinct keys that all occur among the fetched identifiers *)
  assert (Hsub : ids (table e (dbPool (snd (syncEntity e w)))) ⊆ map remote_id records).
  { intros z Hz. unfold ids in Hz. apply list_elem_of_fmap in Hz as (row & -> & Hrow).
    rewrite Forall_forall in Hfrom. destruct (Hfrom row Hrow) as (r & Hin & Hid & _).
    rewrite Hid. apply list_elem_of_fmap. exists r. split; [done |].
    by apply list_elem_of_In. }
  pose proof (submseteq_length _ _ (NoDup_submseteq _ _ Hnd (fun z Hz => Hsub z Hz)))
    as Hlen.
  unfold ids in Hlen. by rewrite !length_map in Hlen.
Qed.

(** X4. Every table's primary keys stay pairwise distinct across an
    entity sync, whatever its result. *)
Theorem sync_keeps_keys_distinct e e' w :
  NoDup (ids (table e' (dbPool w))) ->
  NoDup (ids (table e' (dbPool (snd (syncEntity e w))))).
Proof.
  intros Hnd. destruct (decide (e' = e)) as [-> | Hne].
  - destruct (syncEntity_rows e w) as [(_ & Htab) | (? & ? & _ & _ & _ & Hnd')].
    + by rewrite Htab.
    + done.
  - destruct (syncEntity_frame e w) as (Htab & _). by rewrite Htab.
Qed.

(** ** The order of the rows *)







(** ** Failures after the DELETE, and the width of the status column *)

(** X7. When the fetch and the DELETE go through but the call of the
    success upsert is rejected with [m], the sync reports
    [{success: false, error: m}] although the table has already been
    replaced: it then holds rows of this fetch only, while the
    [sync_status] row of the entity, if there was one, keeps the record
    count of the earlier sync. *)
Theorem late_failure_keeps_new_rows e w records rest rowFaults m tailFaults :
  remote w = Fetched records :: rest ->
  dbFaults w = (None :: rowFaults ++ Some m :: tailFaults)%list ->
  length rowFaults = length records ->
  exists w',
    syncEntity e w = (Ret (SyncErr m), w') /\
    Forall (fromRecords e records) (table e (dbPool w')) /\
    (forall old,
       sync_status (dbPool w) !! entityName e = Some old ->
       exists row,
         sync_status (dbPool w') !! entityName e = Some row /\
         record_count row = record_count old).
Proof.
  intros Hrem Hfaults Hlen.
  assert (Hsync : exists w', syncEntity e w = (Ret (SyncErr m), w')).
  { unfold syncEntity, try_catch. rewrite syncBody_eq, Hrem, Hfaults.
    cbn [nextFault].
    destruct (insertLoop_spec e records 0 (deletedWorld e records w))
      as (k & w3 & Heq & _ & _ & _ & _ & _ & _ & Hf & _).
    rewrite Heq. cbv zeta.
    unfold deletedWorld, fetchedWorld in Hf. wsimpl.
    rewrite Hfaults in Hf. cbn [tail] in Hf.
    rewrite <- Hlen, drop_app_length in Hf. rewrite Hf. cbn [nextFault].
    destruct (syncHandler_spec e m
                (with_dbFaults (tail (Some m :: tailFaults)) (tick w3)))
      as (w' & Hh & _).
    exists w'. exact Hh. }
  destruct Hsync as (w' & Hsync). exists w'. split; [exact Hsync |].
  split.
  - destruct (syncEntity_rows e w)
      as [(Hfail & _) | (records' & rest' & Hrem' & _ & Hfrom & _)].
    + exfalso. apply Hfail.
      unfold fetchOrDeleteFailure, fetchFailure, deleteFailure.
      by rewrite Hrem, Hfaults.
    + rewrite Hrem in Hrem'. injection Hrem' as <- <-.
      by rewrite Hsync in Hfrom.
  - intros old Hold.
    destruct (syncEntity_err_status _ _ _ _ Hsync) as [Hsame | (t & Hup)].
    + exists old. by rewrite Hsame.
    + rewrite Hup, Hold. eexists. rewrite lookup_insert_eq. by split.
Qed.





(** ** The orchestrator and its endpoints *)

Lemma syncAll_accepted w :
  syncInProgress w = false ->
  exists t p k h w',
    syncAll w = (Ret (Combined t p k h (success p || success k || success h)), w') /\
    syncInProgress w' = false /\
    lastSyncResults w' = Combined t p k h (success p || success k || success h) /\
    requested w' = (requested w ++ ["products"; "picklists"; "warehouses"])%list.
Proof.
  intros Hidle.
  destruct (syncEntity_requests Products (started w)) as (p & w1 & Hp & Hr1 & _).
  destruct (syncEntity_requests Picklists w1) as (k & w2 & Hk & Hr2 & _).
  destruct (syncEntity_requests Warehouses w2) as (h & w3 & Hh & Hr3 & _).
  exists (clock w3), p, k, h. eexists. split.
  - unfold syncAll. rewrite Hidle.
    unfold bind at 1. unfold setSyncInProgress at 1.
    unfold bind at 1. unfold log at 1.
    fold (started w).
    unfold try_catch, syncProducts, syncPicklists, syncWarehouses.
    unfold bind at 1. rewrite Hp.
    unfold bind at 1. rewrite Hk.
    unfold bind at 1. rewrite Hh.
    unfold bind, newDate, setLastSyncResults, log, setSyncInProgress, ret.
    wsimpl. reflexivity.
  - wsimpl. split; [done |]. split; [done |].
    rewrite Hr3, Hr2, Hr1. unfold started. wsimpl.
    by rewrite <- !app_assoc.
Qed.

(** X9. An accepted run of [syncAll] asks for products, picklists and
    warehouses, once each and in that order, ends with the in-flight
    flag cleared and [lastSyncResults] equal to the combined result it
    returns, which [GET /api/sync/results] then shows; so the next
    invocation is accepted again. *)
Theorem accepted_run_ends_idle w :
  syncInProgress w = false ->
  exists t p k h ok w',
    syncAll w = (Ret (Combined t p k h ok), w') /\
    syncInProgress w' = false /\
    lastSyncResults w' = Combined t p k h ok /\
    requested w' = (requested w ++ ["products"; "picklists"; "warehouses"])%list /\
    getSyncResults w' =
      {| code := 200; body := Results false (Combined t p k h ok) |} /\
    exists t2 p2 k2 h2 ok2 w2,
      syncAll w' = (Ret (Combined t2 p2 k2 h2 ok2), w2).
Proof.
  intros Hidle.
  destruct (syncAll_accepted w Hidle) as (t & p & k & h & w' & Hall & Hflag & Hlast & Hreq).
  exists t, p, k, h, (success p || success k || success h), w'.
  split; [done |]. split; [done |]. split; [done |]. split; [done |].
  split; [unfold getSyncResults; by rewrite Hflag, Hlast |].
  destruct (syncAll_accepted w' Hflag) as (t2 & p2 & k2 & h2 & w2 & Hall2 & _).
  by exists t2, p2, k2, h2, (success p2 || success k2 || success h2), w2.
Qed.

(** X10. [POST /api/sync] answers 200 "Sync started for all entities"
    whatever the in-flight flag is.  When a run is under way, the run it
    starts is rejected and leaves no trace a poller could see: the
    database, the flag and [lastSyncResults] stay as they were, so
    [GET /api/sync/results] answers as before. *)
Theorem sync_trigger_hides_rejection w :
  syncInProgress w = true ->
  postSync w =
    ({| code := 200; body := Started "Sync started for all entities" |},
     Some RunAll, w) /\
  dbPool (runBackground (Some RunAll) w) = dbPool w /\
  requested (runBackground (Some RunAll) w) = requested w /\
  lastSyncResults (runBackground (Some RunAll) w) = lastSyncResults w /\
  getSyncResults (runBackground (Some RunAll) w) = getSyncResults w.
Proof.
  intros Hbusy. split; [reflexivity |].
  cbn [runBackground]. unfold syncAll. rewrite Hbusy.
  unfold bind, log, ret, getSyncResults. wsimpl. by rewrite Hbusy.
Qed.

Lemma addDefaults_other st k :
  k <> "products" -> k <> "picklists" -> k <> "warehouses" ->
  addDefaults st !! k = st !! k.
Proof.
  intros H1 H2 H3. unfold addDefaults. cbn [foldl].
  repeat case_match; simplify_map_eq; done.
Qed.

(** X11. [GET /api/stats] only reads the database.  When its query
    goes through it reports for each of the three entities the stored
    row, or the placeholder
    [{lastSyncDate: null, totalCount: 0, status: "Not synced yet"}] when
    there is none; a row under any other name is passed on as it is,
    except a row named [__proto__], which never appears in the answer.
    When the query is rejected with [m] the answer is 500 with
    [{success: false, error: m}]. *)
Theorem stats_fill_in_defaults w :
  dbPool (snd (getStats w)) = dbPool w /\
  (nextFault (dbFaults w) = None ->
   exists st,
     fst (getStats w) =
       {| code := 200; body := Stats st (syncInProgress w) |} /\
     (forall e,
        st !! entityName e =
          Some match sync_status (dbPool w) !! entityName e with
               | Some row => statOfRow row
               | None => notSynced
               end) /\
     (forall k, k <> "products" -> k <> "picklists" -> k <> "warehouses" ->
        k <> "__proto__" ->
        st !! k = statOfRow <$> sync_status (dbPool w) !! k) /\
     st !! "__proto__" = None) /\
  (forall m, nextFault (dbFaults w) = Some m ->
     fst (getStats w) = {| code := 500; body := ServerError m |}).
Proof.
  unfold getStats, selectSyncStatus, dbCall.
  destruct (nextFault (dbFaults w)) as [m |]; cbn [fst snd]; wsimpl.
  - split; [done |]. split; [done |]. by intros ? [= <-].
  - split; [done |]. split; [| done]. intros _.
    eexists. split; [reflexivity |]. split; [| split].
    + intros e.
      rewrite addDefaults_lookup, lookup_delete_ne by apply entityName_not_proto.
      rewrite lookup_fmap. by destruct (sync_status (dbPool w) !! entityName e).
    + intros k H1 H2 H3 H4.
      rewrite addDefaults_other, lookup_delete_ne by done. by rewrite lookup_fmap.
    + rewrite addDefaults_other by done. apply lookup_delete_eq.
Qed.

(** X12. After a successful sync of an entity, [GET /api/stats], when
    its query goes through, shows for that entity the returned count,
    which is the number of rows in its table, the status ["success"] and
    the time of the sync. *)
Theorem stats_after_success e w n w' :
  syncEntity e w = (Ret (SyncOk n), w') ->
  nextFault (dbFaults w') = None ->
  exists st,
    fst (getStats w') =
      {| code := 200; body := Stats st (syncInProgress w) |} /\
    st !! entityName e =
      Some {| lastSyncDate := Some (clock w');
              totalCount := Z.of_nat (length (table e (dbPool w')));
              statStatus := "success" |}.
Proof.
  intros Hok Hsel.
  pose proof (sync_success_row e w n w' Hok) as Hrow.
  destruct (syncEntity_total e w) as (res & v & Hv & Hflag & _).
  rewrite Hok in Hv. injection Hv as <- <-.
  apply syncEntity_ok_inv in Hok.
  destruct (syncBody_inv _ _ _ _ Hok)
    as (_ & _ & (records & rest & n' & _ & Hres & Hlen & _)).
  injection Hres as <-.
  destruct (getStats_ok w' Hsel) as (st & v' & Hstats & Hst).
  exists st. rewrite Hstats. cbn [fst]. rewrite Hflag. split; [reflexivity |].
  rewrite Hst, Hrow. cbn.
  unfold statOfRow. cbn. by rewrite Hlen.
Qed.


Lemma syncEntity_fetch_failed e w m :
  fetchFailure w = Some m ->
  exists w',
    syncEntity e w = (Ret (SyncErr m), w') /\
    (forall e', table e' (dbPool w') = table e' (dbPool w)) /\
    remote w' = tail (remote w).
Proof.
  intros Hfetch.
  assert (Hm : fetchOrDeleteFailure w = Some m).
  { unfold fetchOrDeleteFailure. by rewrite Hfetch. }
  destruct (syncEntity_early e w m Hm) as (w1 & w' & Hsync & Hh & Hdb & _).
  destruct (syncHandler_frame e m w1) as (w2 & Hh2 & Htab & _).
  rewrite Hh in Hh2. injection Hh2 as <-.
  destruct (syncEntity_requests e w) as (res & w3 & Hsync3 & _ & Hrem).
  rewrite Hsync in Hsync3. injection Hsync3 as <- <-.
  exists w'. split; [done |]. split; [| done].
  intros e'. by rewrite Htab, Hdb.
Qed.

(** X20. When the remote service rejects all three requests of an
    accepted run, every table is left exactly as it was and the combined
    result carries the three messages with an overall [success] of
    false. *)
Theorem remote_outage_keeps_all_tables w m1 m2 m3 rest :
  syncInProgress w = false ->
  remote w = FetchFailed m1 :: FetchFailed m2 :: FetchFailed m3 :: rest ->
  exists t w',
    syncAll w =
      (Ret (Combined t (SyncErr m1) (SyncErr m2) (SyncErr m3) false), w') /\
    (forall e, table e (dbPool w') = table e (dbPool w)) /\
    remote w' = rest.
Proof.
  intros Hidle Hrem.
  destruct (syncEntity_fetch_failed Products (started w) m1)
    as (w1 & Hp & Ht1 & Hr1).
  { unfold fetchFailure, started. wsimpl. by rewrite Hrem. }
  unfold started in Hr1. wsimpl. rewrite Hrem in Hr1. cbn [tail] in Hr1.
  destruct (syncEntity_fetch_failed Picklists w1 m2) as (w2 & Hk & Ht2 & Hr2).
  { unfold fetchFailure. by rewrite Hr1. }
  rewrite Hr1 in Hr2. cbn [tail] in Hr2.
  destruct (syncEntity_fetch_failed Warehouses w2 m3) as (w3 & Hh & Ht3 & Hr3).
  { unfold fetchFailure. by rewrite Hr2. }
  rewrite Hr2 in Hr3. cbn [tail] in Hr3.
  exists (clock w3). eexists. split.
  - unfold syncAll. rewrite Hidle.
    unfold bind at 1. unfold setSyncInProgress at 1.
    unfold bind at 1. unfold log at 1.
    fold (started w).
    unfold try_catch, syncProducts, syncPicklists, syncWarehouses.
    unfold bind at 1. rewrite Hp.
    unfold bind at 1. rewrite Hk.
    unfold bind at 1. rewrite Hh.
    unfold bind, newDate, setLastSyncResults, log, setSyncInProgress, ret.
    wsimpl. reflexivity.
  - wsimpl. split; [| done].
    intros e. rewrite Ht3, Ht2, Ht1. done.
Qed.

(** ** The request queue: idle clients and draining *)

Module PicqerClientRuns.
Import PicqerClient PicqerClientProps.
Local Open Scope Q_scope.

Lemma Rested_processNextRequest l : Rested (processNextRequest l).
Proof.
  unfold Rested, processNextRequest.
  by destruct (requestQueue (client l)).
Qed.

Lemma Rested_step l ev : Rested l -> Rested (step l ev).
Proof.
  intros HR. destruct ev as [r | i ok | i | d]; cbn [step].
  - unfold request. cbn [processing client with_queue].
    destruct (processing (client l)) eqn:Hp; cbn [negb].
    + unfold Rested. cbn [client processing with_queue]. congruence.
    + apply Rested_processNextRequest.
  - unfold answer. by destruct (inflight l !! i).
  - unfold fire. destruct (timers l !! i); [| done].
    destruct (Qle_bool _ _); [apply Rested_processNextRequest | done].
  - unfold wait. by destruct (Qle_bool _ _).
Qed.

Lemma Rested_run evs : forall l, Rested l -> Rested (run evs l).
Proof.
  induction evs as [| ev evs IH]; intros l HR; [done |].
  cbn [run foldl]. apply IH, Rested_step, HR.
Qed.

Lemma Rested_create config t : Rested (create config t).
Proof. by intros _. Qed.

(** X13. In every state a fresh client can reach, [processing] is
    false exactly when neither an axios call nor a timer is pending, and
    then nothing is queued; a request made in such a state goes to axios
    at once, at the very time of the call, while a request made during
    processing is only appended to the queue. *)
Theorem idle_client_dispatches_at_once config t0 evs :
  let l := run evs (create config t0) in
  (processing (client l) = false <-> inflight l = [] /\ timers l = []) /\
  (processing (client l) = false ->
   requestQueue (client l) = [] /\
   forall r,
     inflight (request r l) = [r] /\
     dispatched (request r l) = (time l, r) :: dispatched l /\
     requestQueue (client (request r l)) = [] /\
     processing (client (request r l)) = true) /\
  (processing (client l) = true ->
   forall r,
     dispatched (request r l) = dispatched l /\
     inflight (request r l) = inflight l /\
     requestQueue (client (request r l)) = (requestQueue (client l) ++ [r])%list).
Proof.
  intros l.
  pose proof (Inv_run evs _ (Inv_create config t0)) as HI. fold l in HI.
  pose proof (Rested_run evs _ (Rested_create config t0)) as HR. fold l in HR.
  destruct HI as (Hone & Hproc & _).
  assert (Hiff : processing (client l) = false <-> inflight l = [] /\ timers l = []).
  { rewrite Hproc. split.
    - intros H. apply negb_false_iff, Nat.eqb_eq in H.
      destruct (inflight l), (timers l); cbn in H; try lia. done.
    - intros (-> & ->). done. }
  split; [exact Hiff |]. split.
  - intros Hidle. pose proof (HR Hidle) as Hq.
    destruct (proj1 Hiff Hidle) as (Hin & Htm).
    split; [exact Hq |]. intros r.
    unfold request. cbn [processing client with_queue]. rewrite Hidle.
    cbn [negb]. unfold processNextRequest.
    cbn [client requestQueue with_queue]. rewrite Hq. cbn [app].
    cbn [inflight dispatched client requestQueue processing with_queue time].
    rewrite Hin. done.
  - intros Hbusy r. unfold request. cbn [processing client with_queue].
    rewrite Hbusy. cbn [negb]. done.
Qed.

(** One round: the pending request settles, the delay passes, the
    timer fires. *)
Lemma settle_step l r ok :
  Inv l -> inflight l = [r] -> 0 <= delay (client l) ->
  Inv (run [Answer 0 ok; Wait (delay (client l)); Fire 0] l) /\
  delay (client (run [Answer 0 ok; Wait (delay (client l)); Fire 0] l))
    = delay (client l) /\
  submitted (run [Answer 0 ok; Wait (delay (client l)); Fire 0] l) = submitted l /\
  settled (run [Answer 0 ok; Wait (delay (client l)); Fire 0] l)
    = (settled l ++ [(r, ok)])%list /\
  match requestQueue (client l) with
  | [] =>
      processing (client (run [Answer 0 ok; Wait (delay (client l)); Fire 0] l))
        = false /\
      inflight (run [Answer 0 ok; Wait (delay (client l)); Fire 0] l) = [] /\
      timers (run [Answer 0 ok; Wait (delay (client l)); Fire 0] l) = [] /\
      requestQueue (client (run [Answer 0 ok; Wait (delay (client l)); Fire 0] l))
        = []
  | q :: rest =>
      inflight (run [Answer 0 ok; Wait (delay (client l)); Fire 0] l) = [q] /\
      requestQueue (client (run [Answer 0 ok; Wait (delay (client l)); Fire 0] l))
        = rest
  end.
Proof.
  intros HI Hin Hd0.
  split; [cbn [run foldl]; by do 3 apply Inv_step |].
  split; [cbn [run foldl]; by rewrite !delay_step |].
  assert (Htm : timers l = []).
  { destruct HI as (Hone & _). rewrite Hin in Hone.
    destruct (timers l); [done | cbn in Hone; lia]. }
  set (d := delay (client l)) in *.
  assert (Hans : answer 0 ok l =
    {| client := client l; time := time l; inflight := [];
       timers := [time l + d]; submitted := submitted l;
       dispatched := dispatched l; settled := (settled l ++ [(r, ok)])%list |}).
  { unfold answer. rewrite Hin, Htm. done. }
  cbn [run foldl step]. rewrite Hans. unfold wait.
  destruct (Qle_bool 0 d) eqn:Hw;
    [| apply not_true_iff_false in Hw; rewrite Qle_bool_iff in Hw; done].
  unfold fire. cbn [timers time lookup list_lookup].
  destruct (Qle_bool (time l + d) (time l + d)) eqn:Hle;
    [| apply not_true_iff_false in Hle; rewrite Qle_bool_iff in Hle;
       destruct Hle; apply Qle_refl].
  unfold processNextRequest.
  cbn [client time inflight timers submitted dispatched settled
       delete list_delete].
  destruct (requestQueue (client l)) as [| q rest]; cbn; done.
Qed.

Lemma run_app evs1 evs2 l : run (evs1 ++ evs2) l = run evs2 (run evs1 l).
Proof. unfold run. apply foldl_app. Qed.

Lemma drain_from oks :
  forall l r,
    Inv l -> inflight l = [r] -> 0 <= delay (client l) ->
    length oks = S (length (requestQueue (client l))) ->
    Inv (run (settleAll (delay (client l)) oks) l) /\
    processing (client (run (settleAll (delay (client l)) oks) l)) = false /\
    inflight (run (settleAll (delay (client l)) oks) l) = [] /\
    timers (run (settleAll (delay (client l)) oks) l) = [] /\
    requestQueue (client (run (settleAll (delay (client l)) oks) l)) = [] /\
    submitted (run (settleAll (delay (client l)) oks) l) = submitted l /\
    map snd (settled (run (settleAll (delay (client l)) oks) l))
      = (map snd (settled l) ++ oks)%list.
Proof.
  induction oks as [| ok oks IH]; intros l r HI Hin Hd0 Hlen; [done |].
  cbn [settleAll].
  change (Answer 0 ok :: Wait (delay (client l)) :: Fire 0
            :: settleAll (delay (client l)) oks)
    with ([Answer 0 ok; Wait (delay (client l)); Fire 0]
            ++ settleAll (delay (client l)) oks)%list.
  rewrite run_app.
  destruct (settle_step l r ok HI Hin Hd0) as (HI1 & Hd1 & Hsub1 & Hset1 & Hq).
  set (l1 := run [Answer 0 ok; Wait (delay (client l)); Fire 0] l) in *.
  destruct (requestQueue (client l)) as [| q rest] eqn:Hqueue.
  - destruct Hq as (Hp & Hin1 & Htm1 & Hq1).
    cbn [length] in Hlen. assert (oks = []) as -> by (by destruct oks).
    cbn [settleAll]. change (run [] l1) with l1.
    split; [done |]. split; [done |]. split; [done |]. split; [done |].
    split; [done |]. split; [done |]. by rewrite Hset1, map_app.
  - destruct Hq as (Hin1 & Hq1). rewrite <- Hd1.
    destruct (IH l1 q HI1 Hin1) as (HI' & Hp & Hin' & Htm' & Hq' & Hsub' & Hset').
    { by rewrite Hd1. }
    { rewrite Hq1. cbn [length] in Hlen. lia. }
    split; [done |]. split; [done |]. split; [done |]. split; [done |].
    split; [done |]. split; [congruence |].
    by rewrite Hset', Hset1, map_app, <- app_assoc.
Qed.

(** X14. However the pending and the queued requests end, resolved or
    rejected, the queue drains: after as many rounds of answer, delay and
    timer as there are requests, every request ever submitted has been
    handed to axios and settled exactly once, in submission order and
    with the outcome of its own round, and the client is at rest with
    nothing queued and nothing pending. *)
Theorem queue_drains_in_order config t0 evs oks :
  (0 < cfg_requestsPerMinute config)%Z ->
  let l := run evs (create config t0) in
  let d := inject_Z (60 * 1000) / inject_Z (cfg_requestsPerMinute config) in
  forall r,
    inflight l = [r] ->
    length oks = S (length (requestQueue (client l))) ->
    processing (client (run (settleAll d oks) l)) = false /\
    requestQueue (client (run (settleAll d oks) l)) = [] /\
    inflight (run (settleAll d oks) l) = [] /\
    timers (run (settleAll d oks) l) = [] /\
    map fst (settled (run (settleAll d oks) l)) = submitted l /\
    rev (map snd (dispatched (run (settleAll d oks) l))) = submitted l /\
    map snd (settled (run (settleAll d oks) l)) = (map snd (settled l) ++ oks)%list.
Proof.
  intros Hpos l d r Hin Hlen.
  assert (Hd : delay (client l) = d).
  { subst l d. rewrite delay_run. by apply delay_create. }
  assert (Hd0 : 0 <= d).
  { subst d. apply Qle_shift_div_l.
    - change 0 with (inject_Z 0). rewrite <- Zlt_Qlt. done.
    - rewrite Qmult_0_l. change 0 with (inject_Z 0). rewrite <- Zle_Qle. done. }
  pose proof (Inv_run evs _ (Inv_create config t0)) as HI. fold l in HI.
  rewrite <- Hd in Hd0.
  destruct (drain_from oks l r HI Hin Hd0 Hlen)
    as (HI' & Hp & Hin' & Htm' & Hq' & Hsub' & Hset').
  rewrite Hd in *.
  destruct HI' as (_ & _ & Hfifo & Hsettled & _).
  rewrite Hq', app_nil_r in Hfifo. rewrite Hin', app_nil_r in Hsettled.
  split; [done |]. split; [done |]. split; [done |]. split; [done |].
  split; [congruence |]. split; [congruence |]. done.
Qed.

End PicqerClientRuns.

(** ** Start-up *)

Module StartupProps.
Import Startup.

Lemma createIfMissing_keeps name cols db k t :
  db !! k = Some t -> createIfMissing name cols db !! k = Some t.
Proof.
  intros Hk. unfold createIfMissing.
  destruct (db !! name) eqn:Hname; [done |].
  rewrite lookup_insert_ne; [done |]. congruence.
Qed.

Lemma createIfMissing_there name cols db :
  is_Some (createIfMissing name cols db !! name).
Proof.
  unfold createIfMissing. destruct (db !! name) eqn:Hname.
  - by rewrite Hname.
  - rewrite lookup_insert_eq. by eexists.
Qed.

Lemma createIfMissing_id name cols db :
  is_Some (db !! name) -> createIfMissing name cols db = db.
Proof. intros [t Ht]. unfold createIfMissing. by rewrite Ht. Qed.

Lemma createIfMissing_other name cols db k :
  k <> name -> createIfMissing name cols db !! k = db !! k.
Proof.
  intros Hk. unfold createIfMissing.
  destruct (db !! name); [done |]. by rewrite lookup_insert_ne.
Qed.

(** Whatever happens, a table that exists is neither dropped nor
    changed. *)
Lemma runCreates_keeps decls :
  forall b k t,
    tables b !! k = Some t -> tables (snd (runCreates decls b)) !! k = Some t.
Proof.
  induction decls as [| [name cols] rest IH]; intros b k t Hk; [done |].
  cbn [runCreates]. destruct (nextFault (faults b)); [done |].
  apply IH. cbn [tables]. by apply createIfMissing_keeps.
Qed.

Lemma runCreates_same decls :
  forall b,
    (forall name cols, In (name, cols) decls -> is_Some (tables b !! name)) ->
    tables (snd (runCreates decls b)) = tables b.
Proof.
  induction decls as [| [name cols] rest IH]; intros b Hall; [done |].
  cbn [runCreates]. destruct (nextFault (faults b)); [done |].
  rewrite IH; cbn [tables].
  - apply createIfMissing_id. apply (Hall name cols). by left.
  - intros n c Hin. rewrite createIfMissing_id.
    + apply (Hall n c). by right.
    + apply (Hall name cols). by left.
Qed.

Lemma runCreates_other decls :
  forall b k,
    (forall cols, ~ In (k, cols) decls) ->
    tables (snd (runCreates decls b)) !! k = tables b !! k.
Proof.
  induction decls as [| [name cols] rest IH]; intros b k Hk; [done |].
  cbn [runCreates]. destruct (nextFault (faults b)); [done |].
  rewrite IH; cbn [tables].
  - apply createIfMissing_other. intros ->. apply (Hk cols). by left.
  - intros c Hin. apply (Hk c). by right.
Qed.

(** With its queries undisturbed the sequence ends normally and every
    declared table exists. *)
Lemma runCreates_ok decls :
  forall b,
    quiet (take (length decls) (faults b)) ->
    exists b',
      runCreates decls b = (Ret tt, b') /\
      (forall name cols, In (name, cols) decls -> is_Some (tables b' !! name)) /\
      dbPool b' = dbPool b /\ listening b' = listening b /\
      console b' = console b.
Proof.
  induction decls as [| [name cols] rest IH]; intros b Hq.
  - exists b. by repeat split.
  - cbn [runCreates length take] in *.
    destruct (faults b) as [| f fs] eqn:Hf.
    + cbn [nextFault tail].
      destruct (IH {| dbPool := dbPool b;
                      tables := createIfMissing name cols (tables b);
                      listening := listening b; console := console b;
                      connectError := connectError b; faults := [] |})
        as (b' & Hrun & Hall & Hrest).
      { cbn [faults]. rewrite take_nil. constructor. }
      exists b'. split; [done |]. split; [| done].
      intros n c [[= <- <-] | Hin]; [| by apply (Hall n c)].
      destruct (createIfMissing_there name cols (tables b)) as [t Ht].
      pose proof (runCreates_keeps rest
                    {| dbPool := dbPool b;
                       tables := createIfMissing name cols (tables b);
                       listening := listening b; console := console b;
                       connectError := connectError b; faults := [] |}
                    name t Ht) as Hkeep.
      rewrite Hrun in Hkeep. by eexists.
    + cbn [take] in Hq. apply Forall_cons in Hq as (-> & Hq).
      cbn [nextFault tail].
      destruct (IH {| dbPool := dbPool b;
                      tables := createIfMissing name cols (tables b);
                      listening := listening b; console := console b;
                      connectError := connectError b; faults := fs |})
        as (b' & Hrun & Hall & Hrest); [done |].
      exists b'. split; [done |]. split; [| done].
      intros n c [[= <- <-] | Hin]; [| by apply (Hall n c)].
      destruct (createIfMissing_there name cols (tables b)) as [t Ht].
      pose proof (runCreates_keeps rest
                    {| dbPool := dbPool b;
                       tables := createIfMissing name cols (tables b);
                       listening := listening b; console := console b;
                       connectError := connectError b; faults := fs |}
                    name t Ht) as Hkeep.
      rewrite Hrun in Hkeep. by eexists.
Qed.

Lemma runCreates_fail decls :
  forall b,
    ~ quiet (take (length decls) (faults b)) ->
    exists m, fst (runCreates decls b) = Throw m.
Proof.
  induction decls as [| [name cols] rest IH]; intros b Hq.
  - exfalso. apply Hq. cbn. constructor.
  - cbn [runCreates length take] in *.
    destruct (faults b) as [| [m |] fs] eqn:Hf; cbn [nextFault tail].
    + exfalso. apply Hq. constructor.
    + by exists m.
    + apply IH. cbn [faults]. intros Hq'. apply Hq. by constructor.
Qed.

Lemma tableDecls_names : NoDup (map fst tableDecls).
Proof.
  cbn.
  repeat (apply NoDup_cons; split;
          [intros H; apply list_elem_of_In in H; cbn in H; intuition discriminate |]).
  apply NoDup_nil_2.
Qed.

(** A declared table that was missing is created empty, with the
    declared columns. *)
Lemma runCreates_new decls name cols :
  NoDup (map fst decls) ->
  In (name, cols) decls ->
  forall b b',
    tables b !! name = None ->
    runCreates decls b = (Ret tt, b') ->
    tables b' !! name = Some {| columns := cols; rows := [] |}.
Proof.
  induction decls as [| [n c] rest IH]; intros Hnd Hin b b' Hnone Hrun; [done |].
  cbn [map fst] in Hnd. apply NoDup_cons in Hnd as (Hn & Hnd).
  cbn [runCreates] in Hrun. destruct (nextFault (faults b)); [done |].
  destruct Hin as [[= -> ->] | Hin].
  - match type of Hrun with runCreates _ ?b1 = _ =>
      pose proof (runCreates_keeps rest b1 name {| columns := cols; rows := [] |})
        as Hkeep end.
    rewrite Hrun in Hkeep. apply Hkeep. cbn [tables].
    unfold createIfMissing. rewrite Hnone. apply lookup_insert_eq.
  - eapply IH; [done | done | | exact Hrun]. cbn [tables].
    rewrite createIfMissing_other; [done |].
    intros ->. apply Hn. apply list_elem_of_fmap. exists (n, cols).
    split; [done |]. by apply list_elem_of_In.
Qed.

(** X15. [createTablesIfNotExist] never drops or changes a table that
    exists, whatever its name and shape, and touches no table outside
    its four; when its four queries are not disturbed it ends normally
    with all four tables present, each one that was missing created
    empty with the declared columns. *)
Theorem tables_created_never_altered b :
  (forall k t,
     tables b !! k = Some t ->
     tables (snd (createTablesIfNotExist b)) !! k = Some t) /\
  (forall k,
     k <> "products" -> k <> "picklists" -> k <> "warehouses" ->
     k <> "sync_status" ->
     tables (snd (createTablesIfNotExist b)) !! k = tables b !! k) /\
  (quiet (take 4 (faults b)) ->
   fst (createTablesIfNotExist b) = Ret tt /\
   forall name cols,
     In (name, cols) tableDecls ->
     exists t,
       tables (snd (createTablesIfNotExist b)) !! name = Some t /\
       (tables b !! name = None -> t = {| columns := cols; rows := [] |})).
Proof.
  unfold createTablesIfNotExist.
  split; [| split].
  - intros k t Hk. pose proof (runCreates_keeps tableDecls b k t Hk) as Hkeep.
    by destruct (runCreates tableDecls b) as [[[] | m] b'].
  - intros k H1 H2 H3 H4.
    pose proof (runCreates_other tableDecls b k) as Hoth.
    destruct (runCreates tableDecls b) as [[[] | m] b']; cbn [snd log tables] in *;
      apply Hoth; intros cols [[=] | [[=] | [[=] | [[=] | []]]]]; congruence.
  - intros Hq.
    destruct (runCreates_ok tableDecls b Hq) as (b' & Hrun & Hall & _).
    rewrite Hrun. cbn [fst snd log tables]. split; [done |].
    intros name cols Hin. destruct (Hall name cols Hin) as [t Ht].
    exists t. split; [done |]. intros Hnone.
    pose proof (runCreates_new tableDecls name cols tableDecls_names Hin
                  b b' Hnone Hrun) as Hnew.
    congruence.
Qed.

(** X16. Once [createTablesIfNotExist] has ended normally, running it
    again on the database it left changes nothing, whether or not the
    second run is disturbed. *)
Theorem tables_creation_is_idempotent b b1 b2 :
  createTablesIfNotExist b = (Ret tt, b1) ->
  tables b2 = tables b1 ->
  tables (snd (createTablesIfNotExist b2)) = tables b1.
Proof.
  unfold createTablesIfNotExist. intros Hfirst Hsame.
  destruct (runCreates tableDecls b) as [[[] | m] b'] eqn:Hrun; [| done].
  injection Hfirst as <-. cbn [log tables] in Hsame.
  assert (Hall : forall name cols,
            In (name, cols) tableDecls -> is_Some (tables b2 !! name)).
  { intros name cols Hin. rewrite Hsame.
    destruct (decide (quiet (take (length tableDecls) (faults b)))) as [Hq | Hq].
    - destruct (runCreates_ok tableDecls b Hq) as (b'' & Hrun' & Hall & _).
      rewrite Hrun in Hrun'. injection Hrun' as <-. by apply (Hall name cols).
    - destruct (runCreates_fail tableDecls b Hq) as (m & Hm).
      rewrite Hrun in Hm. done. }
  pose proof (runCreates_same tableDecls b2 Hall) as Hid.
  destruct (runCreates tableDecls b2) as [[[] | m] b3];
    cbn [snd log tables] in *; congruence.
Qed.

(** X17. The server listens exactly when [sql.connect] resolved and
    none of the four table queries was rejected.  When it listens the
    pool is set and the four tables exist, so [GET /api/status] always
    reports the database as connected; when the connection fails the
    database is not touched and the pool stays [null]. *)
Theorem server_listens_only_when_ready env db connect fs :
  (listening (start env (cold db connect fs)) = true
     <-> connect = None /\ quiet (take 4 fs)) /\
  (listening (start env (cold db connect fs)) = true ->
   dbPool (start env (cold db connect fs)) = true /\
   (forall name cols,
      In (name, cols) tableDecls ->
      is_Some (tables (start env (cold db connect fs)) !! name)) /\
   forall now,
     databaseState (getStatus env now (start env (cold db connect fs)))
       = "connected") /\
  (connect <> None ->
   tables (start env (cold db connect fs)) = db /\
   dbPool (start env (cold db connect fs)) = false).
Proof.
  unfold start, initializeDatabase, cold. cbn [log connectError].
  destruct connect as [cm |].
  - cbn [listening log tables dbPool]. split; [| split].
    + split; [done | by intros [? _]].
    + done.
    + done.
  - unfold createTablesIfNotExist.
    set (b2 := log Info "Database connection pool initialized successfully" _).
    destruct (decide (quiet (take (length tableDecls) (faults b2)))) as [Hq | Hq].
    + destruct (runCreates_ok tableDecls b2 Hq) as (b' & Hrun & Hall & Hpool & _).
      rewrite Hrun. cbn [listening log tables dbPool getStatus databaseState].
      split; [| split; [| done]].
      * split; [intros _; split; [done | exact Hq] | done].
      * intros _. rewrite Hpool. subst b2. cbn [log dbPool]. by repeat split.
    + destruct (runCreates_fail tableDecls b2 Hq) as (m & Hm).
      destruct (runCreates tableDecls b2) as [[[] | m'] b'] eqn:Hrun; [done |].
      cbn [listening log tables dbPool].
      pose proof (f_equal (fun x => listening (snd x)) Hrun) as Hl.
      cbn [snd] in Hl.
      assert (Hlisten : listening b' = false).
      { clear -Hrun. 
        assert (Hgen : forall decls b r b',
                  runCreates decls b = (r, b') -> listening b' = listening b).
        { induction decls as [| [n c] rest IH]; intros b r b0 Hr; cbn [runCreates] in Hr.
          - by injection Hr as <- <-.
          - destruct (nextFault (faults b)); [by injection Hr as <- <- |].
            by apply IH in Hr. }
        by apply Hgen in Hrun. }
      rewrite Hlisten. split; [| split; [done | done]].
      split; [done | by intros [_ Hq']].
Qed.

Lemma runCreates_partial decls :
  forall k b m rest,
    NoDup (map fst decls) ->
    (k < length decls)%nat ->
    faults b = (replicate k None ++ Some m :: rest)%list ->
    exists b',
      runCreates decls b = (Throw m, b') /\
      (forall n c, In (n, c) (take k decls) -> is_Some (tables b' !! n)) /\
      (forall n c, In (n, c) (drop k decls) -> tables b' !! n = tables b !! n) /\
      dbPool b' = dbPool b /\ listening b' = listening b /\
      console b' = console b.
Proof.
  induction decls as [| [name cols] others IH]; intros k b m rest Hnd Hk Hf;
    [cbn in Hk; lia |].
  cbn [map fst] in Hnd. apply NoDup_cons in Hnd as (Hname & Hnd).
  cbn [runCreates]. rewrite Hf. destruct k as [| k]; cbn [replicate app nextFault tail].
  - eexists. split; [reflexivity |]. cbn [take drop tables dbPool listening console].
    by repeat split.
  - cbn [length] in Hk.
    match goal with |- context [runCreates others ?b1] =>
      destruct (IH k b1 m rest Hnd) as (b' & Hrun & Htake & Hdrop & Hp & Hl & Hc);
        [lia | done |];
      pose proof (runCreates_keeps others b1 name) as Hkeep
    end.
    exists b'. split; [done |]. cbn [take drop tables] in *.
    split; [| split; [| done]].
    + intros n c [[= <- <-] | Hin]; [| by apply (Htake n c)].
      destruct (createIfMissing_there name cols (tables b)) as [t Ht].
      specialize (Hkeep t Ht). rewrite Hrun in Hkeep. by eexists.
    + intros n c Hin. rewrite (Hdrop n c Hin).
      apply createIfMissing_other. intros ->. apply Hname.
      apply list_elem_of_fmap. exists (name, c). split; [done |].
      apply list_elem_of_In. eapply (proj1 (list_elem_of_In _ _)).
      apply list_elem_of_In in Hin.
      eapply subseteq_drop. exact Hin.
Qed.

(** X18. When [sql.connect] resolves but the query for the [k]-th table
    (counting from 0) is rejected, start-up stops there and nothing is
    undone: the pool stays set, the server does not listen, the tables
    declared before it exist, and the later ones are as they were. *)
Theorem failed_creation_is_not_rolled_back env db k m rest :
  (k < 4)%nat ->
  listening (start env (cold db None (replicate k None ++ Some m :: rest))) = false /\
  dbPool (start env (cold db None (replicate k None ++ Some m :: rest))) = true /\
  (forall n c,
     In (n, c) (take k tableDecls) ->
     is_Some (tables (start env (cold db None (replicate k None ++ Some m :: rest)))
                !! n)) /\
  (forall n c,
     In (n, c) (drop k tableDecls) ->
     tables (start env (cold db None (replicate k None ++ Some m :: rest))) !! n
       = db !! n) /\
  last (console (start env (cold db None (replicate k None ++ Some m :: rest))))
    = Some (Err, "Failed to initialize database, server not started").
Proof.
  intros Hk. unfold start, initializeDatabase, cold, createTablesIfNotExist.
  cbn [log connectError].
  match goal with |- context [runCreates tableDecls ?b2] =>
    destruct (runCreates_partial tableDecls k b2 m rest tableDecls_names)
      as (b' & Hrun & Htake & Hdrop & Hp & Hl & Hc); [exact Hk | done |]
  end.
  rewrite Hrun. cbn [listening dbPool tables console log] in *.
  rewrite Hl, Hp. split; [done |]. split; [done |].
  split; [exact Htake |]. split; [exact Hdrop |].
  apply last_snoc.
Qed.

End StartupProps.

(** * Further worked runs *)

(** X3 on four fetched products inserted with one repeated identifier
    and one lost connection. *)
Lemma sync_replaces_all_rows_witness :
  nextFault (dbFaults lossyFetch) = None /\
  ids (table Products (dbPool (snd (syncEntity Products lossyFetch)))) = [1; 3] /\
  NoDup (ids (table Products (dbPool (snd (syncEntity Products lossyFetch))))).
Proof.
  split; [reflexivity |]. split; [vm_compute; reflexivity |].
  exact (proj1 (proj2 (sync_replaces_all_rows Products lossyFetch _ _
                         eq_refl eq_refl))).
Defined.

(** X4 on the picklists stored by an earlier sync, across a failing
    picklists sync. *)
Lemma sync_keeps_keys_distinct_witness :
  NoDup (ids (table Picklists (dbPool picklistsDown))) /\
  NoDup (ids (table Picklists (dbPool (snd (syncEntity Picklists picklistsDown))))).
Proof.
  assert (H : NoDup (ids (table Picklists (dbPool picklistsDown)))).
  { cbn. apply NoDup_cons. split.
    - intros Hin. apply list_elem_of_In in Hin. cbn in Hin.
      destruct Hin as [Hin | []]. discriminate Hin.
    - apply NoDup_singleton. }
  split; [exact H |].
  exact (sync_keeps_keys_distinct Picklists Picklists picklistsDown H).
Defined.

(** X7 on two fetched warehouses inserted over two old rows, the success
    upsert being refused: failure is reported, the old rows are gone, and
    the status row still counts 2. *)
Lemma late_failure_keeps_new_rows_witness :
  exists w' row,
    syncEntity Warehouses upsertDown = (Ret (SyncErr "Connection lost"), w') /\
    Forall (fromRecords Warehouses (mkRecords 2)) (table Warehouses (dbPool w')) /\
    sync_status (dbPool w') !! "warehouses" = Some row /\
    record_count row = 2.
Proof.
  destruct (late_failure_keeps_new_rows Warehouses upsertDown (mkRecords 2) []
              [None; None] "Connection lost" [] eq_refl eq_refl eq_refl)
    as (w' & Hsync & Hfrom & Hold).
  destruct (Hold {| last_sync := 2; record_count := 2; status := "success" |}
              eq_refl) as (row & Hrow & Hcount).
  exists w', row. split; [exact Hsync |]. split; [exact Hfrom |].
  split; [exact Hrow | exact Hcount].
Defined.

(** X9 on the mixed run. *)
Lemma accepted_run_ends_idle_witness :
  syncInProgress mixedRun = false /\
  exists w',
    syncInProgress w' = false /\
    requested w' = ["products"; "picklists"; "warehouses"] /\
    snd (syncAll mixedRun) = w'.
Proof.
  split; [reflexivity |].
  destruct (accepted_run_ends_idle mixedRun eq_refl)
    as (t & p & k & h & ok & w' & Hall & Hflag & _ & Hreq & _).
  exists w'. split; [exact Hflag |]. split; [exact Hreq |].
  rewrite Hall. reflexivity.
Defined.

(** X10 on the busy world. *)
Lemma sync_trigger_hides_rejection_witness :
  syncInProgress busyWorld = true /\
  fst (fst (postSync busyWorld))
    = {| code := 200; body := Started "Sync started for all entities" |} /\
  getSyncResults (runBackground (Some RunAll) busyWorld)
    = {| code := 200; body := Results true NoResults |}.
Proof.
  split; [reflexivity |].
  destruct (sync_trigger_hides_rejection busyWorld eq_refl)
    as (Hpost & _ & _ & _ & Hresults).
  split; [rewrite Hpost; reflexivity |].
  rewrite Hresults. reflexivity.
Defined.

(** X12 on the first products run. *)
Lemma stats_after_success_witness :
  syncEntity Products firstRun = (Ret (SyncOk 2), secondRun) /\
  nextFault (dbFaults secondRun) = None /\
  exists st entry,
    fst (getStats secondRun) = {| code := 200; body := Stats st false |} /\
    st !! "products" = Some entry /\
    statStatus entry = "success".
Proof.
  assert (H : syncEntity Products firstRun = (Ret (SyncOk 2), secondRun))
    by (vm_compute; reflexivity).
  assert (Hsel : nextFault (dbFaults secondRun) = None)
    by (vm_compute; reflexivity).
  split; [exact H |]. split; [exact Hsel |].
  destruct (stats_after_success Products firstRun 2 secondRun H Hsel)
    as (st & Hstats & Hentry).
  exists st. eexists. split; [exact Hstats |]. split; [exact Hentry | reflexivity].
Defined.


(** X20 on a remote service that is down, next to stored picklists. *)
Lemma remote_outage_keeps_all_tables_witness :
  syncInProgress remoteDown = false /\
  exists t w',
    syncAll remoteDown =
      (Ret (Combined t (SyncErr "timeout") (SyncErr "timeout") (SyncErr "timeout")
              false), w') /\
    table Picklists (dbPool w') = picklists syncedPicklists.
Proof.
  split; [reflexivity |].
  destruct (remote_outage_keeps_all_tables remoteDown "timeout" "timeout" "timeout"
              [] eq_refl eq_refl) as (t & w' & Hall & Htab & _).
  exists t, w'. split; [exact Hall | exact (Htab Picklists)].
Defined.

(** X14 on three requests made in a row at 30 requests per minute: the
    first resolves, the second is rejected, the third resolves. *)
Lemma queue_drains_in_order_witness :
  (0 < PicqerClient.cfg_requestsPerMinute cfg30)%Z /\
  PicqerClient.inflight (PicqerClient.run threeCalls (PicqerClient.create cfg30 0))
    = [getReq "products" 0] /\
  map snd
    (PicqerClient.settled
       (PicqerClient.run
          (settleAll (inject_Z (60 * 1000) / inject_Z 30) [true; false; true])
          (PicqerClient.run threeCalls (PicqerClient.create cfg30 0))))
    = [true; false; true] /\
  map PicqerClient.endpoint
    (map fst
       (PicqerClient.settled
          (PicqerClient.run
             (settleAll (inject_Z (60 * 1000) / inject_Z 30) [true; false; true])
             (PicqerClient.run threeCalls (PicqerClient.create cfg30 0)))))
    = ["products"; "picklists"; "warehouses"].
Proof.
  split; [reflexivity |]. split; [reflexivity |].
  pose proof (PicqerClientRuns.queue_drains_in_order cfg30 0 threeCalls
                [true; false; true] eq_refl) as H.
  cbv zeta in H.
  change (PicqerClient.cfg_requestsPerMinute cfg30) with 30%Z in H.
  destruct (H (getReq "products" 0) eq_refl eq_refl)
    as (_ & _ & _ & _ & Hfst & _ & Hsnd).
  split; [rewrite Hsnd; reflexivity |].
  rewrite Hfst. reflexivity.
Defined.

(** X16 on a start against an empty database. *)
Lemma tables_creation_is_idempotent_witness :
  fst (Startup.createTablesIfNotExist coldStart) = Ret tt /\
  Startup.tables
    (snd (Startup.createTablesIfNotExist
            (snd (Startup.createTablesIfNotExist coldStart))))
    = Startup.tables (snd (Startup.createTablesIfNotExist coldStart)).
Proof.
  split; [reflexivity |].
  apply (StartupProps.tables_creation_is_idempotent coldStart
           (snd (Startup.createTablesIfNotExist coldStart))
           (snd (Startup.createTablesIfNotExist coldStart))).
  - reflexivity.
  - reflexivity.
Defined.

(** X18 on a start whose third table query is rejected. *)
Lemma failed_creation_is_not_rolled_back_witness :
  (2 < 4)%nat /\
  Startup.listening
    (Startup.start ∅ (Startup.cold ∅ None
                        (replicate 2 None ++ Some "Timeout" :: []))) = false /\
  is_Some (Startup.tables
             (Startup.start ∅ (Startup.cold ∅ None
                                 (replicate 2 None ++ Some "Timeout" :: [])))
             !! "picklists") /\
  Startup.tables
    (Startup.start ∅ (Startup.cold ∅ None
                        (replicate 2 None ++ Some "Timeout" :: [])))
    !! "sync_status" = None.
Proof.
  assert (Hk : (2 < 4)%nat) by lia.
  split; [exact Hk |].
  destruct (StartupProps.failed_creation_is_not_rolled_back ∅ ∅ 2 "Timeout" [] Hk)
    as (Hl & _ & Htake & Hdrop & _).
  split; [exact Hl |]. split.
  - apply (Htake "picklists" Startup.picklistsColumns). right. left. reflexivity.
  - rewrite (Hdrop "sync_status" Startup.syncStatusColumns).
    + reflexivity.
    + right. left. reflexivity.
Defined.



